(** * Vertical structure of accretion discs: the solver of [vs.py]

    A shallow embedding of [src/bin/vs.py] (class [BaseVerticalStructure],
    the mixins that supply the equation of state, the opacity law and the
    temperature gradient, and the shooting method [fit]).

    Conventions of the embedding.
    - Python and NumPy floats are read as real numbers: [+ - * /] are the
      field operations of [R], [x ** n] with an integer literal [n] is
      [x ^ n], [x ** q] with a float exponent is [fpow x q], [np.sqrt] is
      [sqrt], [abs] is [Rabs], [np.minimum] is [Rmin].  Rounding, overflow
      and NaN are outside the model.
    - A method is a function of [self : session]; a method that assigns
      attributes returns the updated session.
    - Observable effects ([print], [breakpoint()]), exceptions and
      non-termination of the [while True] loop live in the monad [M].
    - SciPy ([solve_ivp], [brentq]) and the astropy constants are
      interfaces ([Scipy], [Constants]): the solver code is verified for
      every implementation of them. *)

From Stdlib Require Import Reals Lra Lia List String Arith Sorted.
Import ListNotations.
Open Scope R_scope.

(** ** Comparisons and powers on floats *)

Definition Rltb (a b : R) : bool := if Rlt_dec a b then true else false.
Definition Reqb (a b : R) : bool := if Req_dec_T a b then true else false.

(** [x ** q] for a float exponent [q]; meaningful for [0 < x]. *)
Definition fpow (x q : R) : R := Rpower x q.

(** ** Effects: trace of events, exceptions, fuel *)

Inductive event : Type :=
| Printed (msg : string)
| Breakpoint.

Inductive exn : Type :=
| AssertionError
| IndexError.

Inductive outcome (A : Type) : Type :=
| Returns (a : A)
| Raises (e : exn)
| OutOfFuel.
Arguments Returns {A} a.
Arguments Raises {A} e.
Arguments OutOfFuel {A}.

Definition M (A : Type) : Type := (list event * outcome A)%type.

Definition ret {A} (a : A) : M A := ([], Returns a).
Definition raise {A} (e : exn) : M A := ([], Raises e).
Definition out_of_fuel {A} : M A := ([], OutOfFuel).
Definition emit (e : event) : M unit := ([e], Returns tt).

Definition with_trace {A} (tr : list event) (m : M A) : M A :=
  (tr ++ fst m, snd m).

Definition bind {A B} (m : M A) (k : A -> M B) : M B :=
  match snd m with
  | Returns a => with_trace (fst m) (k a)
  | Raises e => (fst m, Raises e)
  | OutOfFuel => (fst m, OutOfFuel)
  end.

Notation "x <- m ;; k" := (bind m (fun x => k))
  (at level 61, m at next level, right associativity).
Notation "' p <- m ;; k" := (bind m (fun x => match x with p => k end))
  (at level 61, p pattern, m at next level, right associativity).
Notation "m ;;; k" := (bind m (fun _ => k))
  (at level 61, right associativity).

Definition print (msg : string) : M unit := emit (Printed msg).
Definition breakpoint : M unit := emit Breakpoint.

(** Python's [xs[-1]]. *)
Definition last_item {A} (xs : list A) : M A :=
  match rev xs with
  | [] => raise IndexError
  | x :: _ => ret x
  end.

(** ** The unknown functions *)

Module Vars.
Inductive t : Type := S | P | Q | T.
Definition index (v : t) : nat :=
  match v with S => 0 | P => 1 | Q => 2 | T => 3 end.
End Vars.

(** The array [y] of the four dimensionless functions. *)
Record yvec : Type := mk_y { yS : R; yP : R; yQ : R; yT : R }.

Definition get (y : yvec) (v : Vars.t) : R :=
  match v with
  | Vars.S => yS y
  | Vars.P => yP y
  | Vars.Q => yQ y
  | Vars.T => yT y
  end.
Notation "y .[ v ]" := (get y v) (at level 1, left associativity, format "y .[ v ]").

(** ** External interfaces *)

(** [astropy.constants], cgs values.  Only their signs matter below. *)
Class Constants : Type := {
  sigmaSB : R;
  R_gas : R;
  G : R;
  M_sun : R
}.

Definition positive_constants `{Constants} : Prop :=
  0 < sigmaSB /\ 0 < R_gas /\ 0 < G /\ 0 < M_sun.

(** The attributes of a [BaseVerticalStructure] object. *)
Record session : Type := mk_session {
  mu : R;
  Mx : R;
  GM : R;
  alpha : R;
  r : R;
  F : R;
  omegaK : R;
  eps : R;
  Q_norm : R;
  Q0 : R;
  z0 : R;
  P_norm : R;
  T_norm : R;
  sigma_norm : R;
  Teff : R
}.

(** What [solve_ivp] returns: the columns of [solution.y] and the message. *)
Record OdeResult (Y : Type) : Type := mk_ode {
  sol_t : list R;
  sol_y : list Y;
  sol_message : string
}.
Arguments sol_t {Y} _.
Arguments sol_y {Y} _.
Arguments sol_message {Y} _.

(** [scipy.integrate.solve_ivp] at its two call sites and
    [scipy.optimize.brentq] with [full_output=True].  The callback of
    [brentq] assigns [self.z0], hence the session it threads. *)
Class Scipy : Type := {
  RootResults : Type;
  solve_ivp_RK45 :
    (R -> R -> R) -> R * R -> R -> R -> M (OdeResult R);
  solve_ivp_RK23 :
    (R -> yvec -> M yvec) -> R * R -> yvec -> list R -> R -> M (OdeResult yvec);
  brentq :
    (R -> session -> M (R * session)) -> R -> R -> session ->
    M ((R * RootResults) * session)
}.

(** ** Integrators that advance by steps *)

(** [y + h * k], componentwise. *)
Definition axpy (y : yvec) (h : R) (k : yvec) : yvec :=
  {| yS := yS y + h * yS k; yP := yP y + h * yP k;
     yQ := yQ y + h * yQ k; yT := yT y + h * yT k |}.

(** One stage of a Runge-Kutta step: its weight, and the coordinate and
    the state at which the right side is evaluated. *)
Record stage : Type := mk_stage { st_weight : R; st_t : R; st_y : yvec }.

(** [y + h * (b_1 k_1 + ... + b_n k_n)] for the stage slopes [ks]. *)
Fixpoint rk_update (y : yvec) (h : R) (stages : list stage) (ks : list yvec)
    : yvec :=
  match stages, ks with
  | st :: stages', k :: ks' =>
      rk_update (axpy y (h * st_weight st) k) h stages' ks'
  | _, _ => y
  end.

(** A step of size [h >= 0] of an explicit Runge-Kutta method with
    non-negative weights for the right side [f], every stage being
    evaluated at a state that satisfies [ok].  The steps of RK23 have
    this form (weights 2/9, 1/3, 4/9). *)
Inductive rk_step (f : R -> yvec -> M yvec) (ok : yvec -> Prop)
    : yvec -> yvec -> Prop :=
| rk_step_intro (y : yvec) (h : R) (stages : list stage) (ks : list yvec) :
    0 <= h ->
    Forall2 (fun st k =>
               0 <= st_weight st /\ ok (st_y st)
               /\ exists tr, f (st_t st) (st_y st) = (tr, Returns k))
            stages ks ->
    rk_step f ok y (rk_update y h stages ks).

Inductive rk_steps (f : R -> yvec -> M yvec) (ok : yvec -> Prop)
    : yvec -> yvec -> Prop :=
| rk_steps_refl (y : yvec) : rk_steps f ok y y
| rk_steps_step (y y' y'' : yvec) :
    rk_step f ok y y' -> rk_steps f ok y' y'' -> rk_steps f ok y y''.

(** The output samples [ys] of an integration started at [y0]: each one
    is reached from the one before it, the first from [y0], by finitely
    many steps. *)
Inductive advances (f : R -> yvec -> M yvec) (ok : yvec -> Prop)
    : yvec -> list yvec -> Prop :=
| advances_nil (y : yvec) : advances f ok y []
| advances_cons (y y' : yvec) (ys : list yvec) :
    rk_steps f ok y y' -> advances f ok y' ys -> advances f ok y (y' :: ys).

(** ** The physics laws supplied by the mixins *)

Record eos_temp : Type := mk_eos { lnfree_e : R }.

(** [law_of_rho] returns the density alone or with the EOS data,
    depending on [full_output]. *)
Definition rho_ret (full_output : bool) : Type :=
  if full_output then (R * eos_temp)%type else R.

Class EOSLaw : Type := {
  law_of_rho : session -> R -> R -> forall full_output : bool, rho_ret full_output
}.

Class OpacityLaw : Type := {
  law_of_opacity : session -> R -> R -> R -> R
}.

Class TempGradient : Type := {
  dlnTdlnP : session -> yvec -> R -> R
}.

(** [IdealGasMixin] *)
Section IdealGas.
Context `{Constants}.

Definition IdealGas_law_of_rho (self : session) (P T : R)
    (full_output : bool) : rho_ret full_output :=
  match full_output return rho_ret full_output with
  | false => P * mu self / (R_gas * T)
  | true =>
      let eos := mk_eos 0 in
      (P * mu self / (R_gas * T), eos)
  end.

Definition IdealGasMixin : EOSLaw := {| law_of_rho := IdealGas_law_of_rho |}.
End IdealGas.

Module KramersOpacityMixin.
Definition varkappa0 : R := 5e24.
Definition zeta : nat := 1.
Definition gamma : R := -7 / 2.

Definition law_of_opacity (self : session) (rho T lnfree_e : R) : R :=
  varkappa0 * (rho ^ zeta) * (fpow T gamma).

Definition mixin : OpacityLaw := Build_OpacityLaw law_of_opacity.
End KramersOpacityMixin.

Module BellLin1994TwoComponentOpacityMixin.
Definition varkappa0_ff : R := 1.5e20.
Definition zeta_ff : nat := 1.
Definition gamma_ff : R := -5 / 2.
Definition varkappa0_h : R := 1.0e-36.
Definition zeta_h : R := 1 / 3.
Definition gamma_h : nat := 10.

Definition opacity_h (self : session) (rho T : R) : R :=
  varkappa0_h * (fpow rho zeta_h) * (T ^ gamma_h).

Definition opacity_ff (self : session) (rho T : R) : R :=
  varkappa0_ff * (rho ^ zeta_ff) * (fpow T gamma_ff).

Definition law_of_opacity (self : session) (rho T lnfree_e : R) : R :=
  Rmin (opacity_h self rho T) (opacity_ff self rho T).

Definition mixin : OpacityLaw := Build_OpacityLaw law_of_opacity.
End BellLin1994TwoComponentOpacityMixin.

(** ** [BaseVerticalStructure] *)

Section BaseVerticalStructure.
Context `{Constants} `{Scipy} `{EOSLaw} `{OpacityLaw}.

(** The setter of the property [z0]. *)
Definition set_z0 (self : session) (z0 : R) : session :=
  {| mu := mu self; Mx := Mx self; GM := GM self; alpha := alpha self;
     r := r self; F := F self; omegaK := omegaK self; eps := eps self;
     Q_norm := Q_norm self; Q0 := Q0 self;
     z0 := z0;
     P_norm := (4 / 3) * Q_norm self / (alpha self * z0 * omegaK self);
     T_norm := omegaK self ^ 2 * mu self * z0 ^ 2 / R_gas;
     sigma_norm := 28 * Q_norm self / (3 * alpha self * z0 ^ 2 * omegaK self ^ 3);
     Teff := Teff self |}.

(** The assignment [self.Teff = ...]. *)
Definition set_Teff (self : session) (Teff : R) : session :=
  {| mu := mu self; Mx := Mx self; GM := GM self; alpha := alpha self;
     r := r self; F := F self; omegaK := omegaK self; eps := eps self;
     Q_norm := Q_norm self; Q0 := Q0 self;
     z0 := z0 self; P_norm := P_norm self; T_norm := T_norm self;
     sigma_norm := sigma_norm self;
     Teff := Teff |}.

Definition z0_init (self : session) : R :=
  r self * 2.86e-7 * fpow (F self) (3 / 20) * fpow (Mx self / M_sun) (-9 / 20)
  * fpow (alpha self) (-1 / 10) * fpow (r self / 1e10) (1 / 20).

Definition default_eps : R := 1e-5.
Definition default_mu : R := 0.6.

(** [__init__].  The attributes assigned late ([z0], the three norms,
    [Teff]) start from a placeholder that no method reads before the
    assignment. *)
Definition __init__ (Mx alpha r F eps mu : R) : M session :=
  let gm := G * Mx in
  let omega := sqrt (gm / r ^ 3) in
  let q0 := (3 / (8 * PI)) * F * omega / r ^ 2 in
  let self := mk_session mu Mx gm alpha r F omega eps q0 q0 0 0 0 0 0 in
  let self := set_z0 self (z0_init self) in
  let self := set_Teff self (fpow (Q0 self / sigmaSB) (1 / 4)) in
  ret self.

Definition law_of_viscosity (self : session) (P : R) : R :=
  alpha self * P.

Definition viscosity (self : session) (y : yvec) : R :=
  law_of_viscosity self (y.[Vars.P] * P_norm self).

Definition rho (self : session) (y : yvec) (full_output : bool)
    : rho_ret full_output :=
  law_of_rho self (y.[Vars.P] * P_norm self) (y.[Vars.T] * T_norm self)
    full_output.

Definition opacity (self : session) (y : yvec) (lnfree_e : R) : R :=
  let rho := rho self y false in
  law_of_opacity self rho (y.[Vars.T] * T_norm self) lnfree_e.

Definition photospheric_pressure_equation (self : session) (tau P : R) : R :=
  let T := Teff self * fpow (1 / 2 + 3 * tau / 4) (1 / 4) in
  let '(rho, eos) := law_of_rho self P T true in
  let varkappa := law_of_opacity self rho T (lnfree_e eos) in
  z0 self * omegaK self ^ 2 / varkappa.

Definition P_ph (self : session) : M R :=
  solution <- solve_ivp_RK45 (photospheric_pressure_equation self)
                (0, 2 / 3) (1e-7 * P_norm self) (eps self) ;;
  last_item (sol_y solution).

Definition Q_initial (self : session) : R := 1.

Definition initial (self : session) : M yvec :=
  let Q_initial := Q_initial self in
  p_ph <- P_ph self ;;
  ret {| yS := 0;
         yP := p_ph / P_norm self;
         yQ := Q_initial;
         yT := fpow (Q_initial * Q_norm self / sigmaSB) (1 / 4) / T_norm self |}.

Definition dQdz (self : session) (y : yvec) (t : R) : R :=
  let w_r_phi := viscosity self y in
  - (3 / 2) * z0 self * omegaK self * w_r_phi / Q_norm self.

Context `{TempGradient}.

(** The right side of the ODE system.  A negative [T] or [S] prints a
    message and calls [breakpoint()]; the computation then goes on. *)
Definition dydt (self : session) (t : R) (y : yvec) : M yvec :=
  (if (Rltb y.[Vars.T] 0 || Rltb y.[Vars.S] 0)%bool
   then print "S or T < 0" ;;; breakpoint
   else ret tt) ;;;
  let '(rho, eos) := rho self y true in
  let dS := 2 * rho * z0 self / sigma_norm self in
  let dP := rho * (1 - t) * omegaK self ^ 2 * z0 self ^ 2 / P_norm self in
  let dQ := dQdz self y t in
  let grad := dlnTdlnP self y t in
  let dT := grad * dP * y.[Vars.T] / y.[Vars.P] in
  ret {| yS := dS; yP := dP; yQ := dQ; yT := dT |}.

(** [integrate]: [t[0]] of an empty sequence is an [IndexError]. *)
Definition integrate (self : session) (t : list R) : M (list yvec * string) :=
  match t with
  | [] => raise IndexError
  | t0 :: _ =>
      if Reqb t0 0 then
        y0 <- initial self ;;
        solution <- solve_ivp_RK23 (dydt self) (t0, last t t0) y0 t (eps self) ;;
        ret (sol_y solution, sol_message solution)
      else raise AssertionError
  end.

Definition y_c (self : session) : M yvec :=
  y <- integrate self [0; 1] ;;
  last_item (fst y).

(** Midplane opacity, density, temperature, pressure, surface density. *)
Definition parameters_C (self : session) : M (R * R * R * R * R) :=
  y_c <- y_c self ;;
  let Sigma0 := y_c.[Vars.S] * sigma_norm self in
  let T_C := y_c.[Vars.T] * T_norm self in
  let P_C := y_c.[Vars.P] * P_norm self in
  let '(rho_C, eos) := rho self y_c true in
  let varkappa_C := opacity self y_c (lnfree_e eos) in
  ret (varkappa_C, rho_C, T_C, P_C, Sigma0).

(** Optical thickness from the midplane values. *)
Definition tau0 (self : session) : M R :=
  y <- parameters_C self ;;
  let '(varkappa_C, _, _, _, Sigma0) := y in
  ret (Sigma0 * varkappa_C / 2).

(** The four Pi parameters. *)
Definition Pi_finder (self : session) : M (R * R * R * R) :=
  '(varkappa_C, rho_C, T_C, P_C, Sigma0) <- parameters_C self ;;
  let Pi_1 := (omegaK self ^ 2 * z0 self ^ 2 * rho_C) / P_C in
  let Pi_2 := Sigma0 / (2 * z0 self * rho_C) in
  let Pi_3 := (3 / 4) * (alpha self * omegaK self * P_C * Sigma0)
              / (Q0 self * rho_C) in
  let Pi_4 := (3 / 32) * (Teff self / T_C) ^ 4 * (Sigma0 * varkappa_C) in
  ret (Pi_1, Pi_2, Pi_3, Pi_4).

(** The inner function [dq] of [fit]: it assigns [self.z0]. *)
Definition dq (z0r : R) (self : session) : M (R * session) :=
  let self := set_z0 self (z0r * r self) in
  y <- y_c self ;;
  let q_c := y.[Vars.Q] in
  ret (q_c, self).

(** The [while True] loop of [fit], with fuel. *)
Fixpoint bracket (fuel : nat) (factor sign_dq z0r : R) (self : session)
    : M (R * session) :=
  match fuel with
  | O => out_of_fuel
  | Datatypes.S fuel' =>
      let z0r := z0r * factor in
      '(d, self) <- dq z0r self ;;
      if Rltb (sign_dq * d) 0 then ret (z0r, self)
      else bracket fuel' factor sign_dq z0r self
  end.

Definition fit (fuel : nat) (self : session)
    : M ((R * RootResults) * session) :=
  let z0r := z0 self / r self in
  '(sign_dq, self) <- dq z0r self ;;
  let factor := if Rltb 0 sign_dq then 2.0 else 0.5 in
  '(z0r, self) <- bracket fuel factor sign_dq z0r self ;;
  '((z0r, result), self) <- brentq dq z0r (z0r / factor) self ;;
  ret ((z0r, result), self).
End BaseVerticalStructure.

(** ** [RadiativeTempGradient] *)

Section RadiativeTempGradient.
Context `{Constants} `{EOSLaw} `{OpacityLaw}.

(** The branch taken when [t == 1]. *)
Definition dlnTdlnP_rad_midplane (self : session) (y : yvec) (t : R)
    (varkappa : R) : R :=
  - dQdz self y t * (y.[Vars.P] / y.[Vars.T] ^ 4) * 3 * varkappa
  * (Q_norm self * P_norm self / T_norm self ^ 4)
  / (16 * sigmaSB * z0 self * omegaK self ^ 2).

(** The [else] branch. *)
Definition dlnTdlnP_rad_general (self : session) (y : yvec) (t : R)
    (rho varkappa : R) : R :=
  let dTdz := (Rabs y.[Vars.Q] / y.[Vars.T] ^ 3) * 3 * varkappa * rho
              * z0 self * Q_norm self / (16 * sigmaSB * T_norm self ^ 4) in
  let dPdz := rho * (1 - t) * omegaK self ^ 2 * z0 self ^ 2 / P_norm self in
  (y.[Vars.P] / y.[Vars.T]) * (dTdz / dPdz).

Definition RadiativeTempGradient_dlnTdlnP (self : session) (y : yvec) (t : R)
    : R :=
  let '(rho, eos) := rho self y true in
  let varkappa := opacity self y (lnfree_e eos) in
  if Reqb t 1 then dlnTdlnP_rad_midplane self y t varkappa
  else dlnTdlnP_rad_general self y t rho varkappa.

Definition RadiativeTempGradient : TempGradient :=
  {| dlnTdlnP := RadiativeTempGradient_dlnTdlnP |}.
End RadiativeTempGradient.

(** ** Sessions in the physical range *)

Section Valid.
Context `{Constants}.

(** Positive inputs, and norms that agree with the current [z0]. *)
Record valid (s : session) : Prop := mk_valid {
  valid_alpha : 0 < alpha s < 1;
  valid_Mx : 0 < Mx s;
  valid_r : 0 < r s;
  valid_mu : 0 < mu s;
  valid_omegaK : 0 < omegaK s;
  valid_Q_norm : 0 < Q_norm s;
  valid_z0 : 0 < z0 s;
  valid_P_norm : P_norm s = (4 / 3) * Q_norm s / (alpha s * z0 s * omegaK s);
  valid_T_norm : T_norm s = omegaK s ^ 2 * mu s * z0 s ^ 2 / R_gas;
  valid_sigma_norm :
    sigma_norm s = 28 * Q_norm s / (3 * alpha s * z0 s ^ 2 * omegaK s ^ 3)
}.
End Valid.

(** What the constructor establishes besides: the derived constants
    agree with the inputs. *)
Section Coherent.
Context `{Constants}.

Record coherent (s : session) : Prop := mk_coherent {
  coherent_GM : GM s = G * Mx s;
  coherent_omegaK : omegaK s = sqrt (GM s / r s ^ 3);
  coherent_Q_norm : Q_norm s = (3 / (8 * PI)) * F s * omegaK s / r s ^ 2;
  coherent_Q0 : Q0 s = Q_norm s;
  coherent_Teff : Teff s = fpow (Q0 s / sigmaSB) (1 / 4)
}.
End Coherent.

(** ** Concrete instances used in the examples *)

Module Fixture.

(** CODATA 2018 values in cgs units. *)
Definition cgs : Constants :=
  {| sigmaSB := 5.670374419e-5;
     R_gas := 8.31446261815324e7;
     G := 6.6743e-8;
     M_sun := 1.988409870698051e33 |}.

(** A grey opacity (electron scattering), [0.4 cm^2/g]. *)
Definition grey_opacity (self : session) (rho T lnfree_e : R) : R := 0.4.
Definition GreyOpacity : OpacityLaw := Build_OpacityLaw grey_opacity.

Definition add_scaled (y : yvec) (h : R) (dy : yvec) : yvec :=
  {| yS := yS y + h * yS dy; yP := yP y + h * yP dy;
     yQ := yQ y + h * yQ dy; yT := yT y + h * yT dy |}.

(** One explicit Euler step over the whole interval, in place of the
    adaptive Runge-Kutta integrators. *)
Definition euler_scalar (f : R -> R -> R) (span : R * R) (y0 rtol : R)
    : M (OdeResult R) :=
  let '(t0, t1) := span in
  ret (mk_ode R [t0; t1] [y0; y0 + (t1 - t0) * f t0 y0] "euler").

Definition euler_system (f : R -> yvec -> M yvec) (span : R * R) (y0 : yvec)
    (t_eval : list R) (rtol : R) : M (OdeResult yvec) :=
  let '(t0, t1) := span in
  dy <- f t0 y0 ;;
  ret (mk_ode yvec [t0; t1] [y0; add_scaled y0 (t1 - t0) dy] "euler").

(** One bisection step, in place of Brent's method. *)
Definition bisect_once (f : R -> session -> M (R * session)) (a b : R)
    (self : session) : M ((R * bool) * session) :=
  let m := (a + b) / 2 in
  '(d, self) <- f m self ;;
  ret ((m, Reqb d 0), self).

Definition EulerScipy : Scipy :=
  {| RootResults := bool;
     solve_ivp_RK45 := euler_scalar;
     solve_ivp_RK23 := euler_system;
     brentq := bisect_once |}.

(** An integrator that gives up, returning no output point, when the
    starting value is below [threshold], and is [euler_scalar] otherwise. *)
Definition guarded_scalar (threshold : R) (f : R -> R -> R) (span : R * R)
    (y0 rtol : R) : M (OdeResult R) :=
  if Rltb y0 threshold then ret (mk_ode R [] [] "failed")
  else euler_scalar f span y0 rtol.

Definition GuardedScipy (threshold : R) : Scipy :=
  {| RootResults := bool;
     solve_ivp_RK45 := guarded_scalar threshold;
     solve_ivp_RK23 := euler_system;
     brentq := bisect_once |}.

(** An integrator that makes no progress: every output sample is the
    starting value, and the right side is never evaluated. *)
Definition stalled_scalar (f : R -> R -> R) (span : R * R) (y0 rtol : R)
    : M (OdeResult R) :=
  let '(t0, t1) := span in
  ret (mk_ode R [t0; t1] [y0; y0] "stalled").

Definition stalled_system (f : R -> yvec -> M yvec) (span : R * R) (y0 : yvec)
    (t_eval : list R) (rtol : R) : M (OdeResult yvec) :=
  let '(t0, t1) := span in
  ret (mk_ode yvec [t0; t1] [y0; y0] "stalled").

Definition StalledScipy : Scipy :=
  {| RootResults := bool;
     solve_ivp_RK45 := stalled_scalar;
     solve_ivp_RK23 := stalled_system;
     brentq := bisect_once |}.

(** The guarded integrator with threshold [4e-7]. *)
Definition Guarded4 : Scipy := GuardedScipy 4e-7.

(** The attributes [__init__] assigns for [Mx = 1/G], [r = 1] and
    [F = 8 pi / 3] (so that [omegaK = 1] and [Q_norm = 1]), with
    viscosity parameter [a] and the default [eps] and [mu]. *)
Definition constructed (a : R) : session :=
  let G := @G cgs in
  let sigmaSB := @sigmaSB cgs in
  let pre := mk_session default_mu (1 / G) 1 a 1 (8 * PI / 3) 1 default_eps
               1 1 0 0 0 0 0 in
  let self := @set_z0 cgs pre (@z0_init cgs pre) in
  set_Teff self (fpow (1 / sigmaSB) (1 / 4)).

(** The same session after the assignment [self.z0 = z]. *)
Definition session_at (a z : R) : session := @set_z0 cgs (constructed a) z.

(** The midplane flux that one Euler step gives with the grey opacity,
    for viscosity parameter [a] and half-thickness [z] ([r = 1]). *)
Definition residual (a z : R) : R := 1 - 2e-7 - a * z ^ 2 / 0.4.

(** A state with unit pressure, flux and temperature and mass
    coordinate [S]. *)
Definition unit_state (S : R) : yvec := {| yS := S; yP := 1; yQ := 1; yT := 1 |}.

End Fixture.

(** The closed-form scale constants of the normalization layer, as
    functions of the physical inputs and the half-thickness alone. *)
Section ScaleConstants.
Context `{Constants}.

Definition omegaK_of (Mx r : R) : R := sqrt (G * Mx / r ^ 3).

Definition Q_norm_of (Mx r F : R) : R :=
  (3 / (8 * PI)) * F * omegaK_of Mx r / r ^ 2.

Definition P_norm_of (Mx alpha r F z0 : R) : R :=
  (4 / 3) * Q_norm_of Mx r F / (alpha * z0 * omegaK_of Mx r).

Definition T_norm_of (Mx r mu z0 : R) : R :=
  omegaK_of Mx r ^ 2 * mu * z0 ^ 2 / R_gas.

Definition sigma_norm_of (Mx alpha r F z0 : R) : R :=
  28 * Q_norm_of Mx r F / (3 * alpha * z0 ^ 2 * omegaK_of Mx r ^ 3).

Definition Teff_of (Mx r F : R) : R := fpow (Q_norm_of Mx r F / sigmaSB) (1 / 4).
End ScaleConstants.

(** ** Basic facts about the monad *)

Lemma with_trace_nil {A} (m : M A) : with_trace [] m = m.
Proof. destruct m; reflexivity. Qed.

Lemma with_trace_app {A} (tr1 tr2 : list event) (m : M A) :
  with_trace tr1 (with_trace tr2 m) = with_trace (tr1 ++ tr2) m.
Proof. unfold with_trace; simpl. now rewrite app_assoc. Qed.

Lemma bind_ret_l {A B} (a : A) (k : A -> M B) : bind (ret a) k = k a.
Proof. unfold bind; simpl. apply with_trace_nil. Qed.

Lemma bind_nil_returns {A B} (a : A) (k : A -> M B) :
  bind ([], Returns a) k = k a.
Proof. exact (bind_ret_l a k). Qed.

Lemma bind_returns {A B} (m : M A) (k : A -> M B) tr a :
  m = (tr, Returns a) -> bind m k = with_trace tr (k a).
Proof. intros ->. reflexivity. Qed.

Lemma bind_with_trace {A B} tr (m : M A) (k : A -> M B) :
  bind (with_trace tr m) k = with_trace tr (bind m k).
Proof.
  destruct m as [tr' [a | e | ]]; unfold bind, with_trace; simpl;
    try rewrite app_assoc; reflexivity.
Qed.

Lemma bind_ret_r {A} (m : M A) : bind m ret = m.
Proof.
  destruct m as [tr [a | e | ]]; unfold bind, with_trace, ret; simpl;
    try rewrite app_nil_r; reflexivity.
Qed.

Lemma Rltb_true a b : a < b -> Rltb a b = true.
Proof. intros Hab. unfold Rltb. destruct (Rlt_dec a b); [reflexivity | contradiction]. Qed.

Lemma Rltb_false a b : ~ a < b -> Rltb a b = false.
Proof. intros Hab. unfold Rltb. destruct (Rlt_dec a b); [contradiction | reflexivity]. Qed.

Lemma Reqb_true a b : a = b -> Reqb a b = true.
Proof. intros Hab. unfold Reqb. destruct (Req_dec_T a b); [reflexivity | contradiction]. Qed.

Lemma Reqb_false a b : a <> b -> Reqb a b = false.
Proof. intros Hab. unfold Reqb. destruct (Req_dec_T a b); [contradiction | reflexivity]. Qed.

Lemma fpow_pos x q : 0 < fpow x q.
Proof. unfold fpow, Rpower. apply exp_pos. Qed.

(** Positivity of products, quotients and powers of positive numbers. *)
Ltac positivity :=
  repeat first
    [ assumption
    | lra
    | apply fpow_pos
    | apply pow_lt
    | apply Rmult_lt_0_compat
    | apply Rdiv_lt_0_compat
    | apply Rinv_0_lt_compat ].

(** ** Opacity laws *)

(** C10: both opacity variants, the Kramers power law and the Bell and
    Lin two-component minimum law, return the same opacity whatever the
    value of the [lnfree_e] argument. *)
Theorem law_of_opacity_ignores_lnfree_e (self : session) (rho T e1 e2 : R) :
  KramersOpacityMixin.law_of_opacity self rho T e1
  = KramersOpacityMixin.law_of_opacity self rho T e2
  /\ BellLin1994TwoComponentOpacityMixin.law_of_opacity self rho T e1
     = BellLin1994TwoComponentOpacityMixin.law_of_opacity self rho T e2.
Proof. split; reflexivity. Qed.

(** ** The solver *)

Section Solver.
Context `{Constants} `{Scipy} `{EOSLaw} `{OpacityLaw} `{TempGradient}.

(** C9: [integrate] checks that the grid starts at the surface: a grid
    whose first point is not 0 raises [AssertionError] with no output and
    without consulting the integrator, and a grid that starts at 0 goes on
    to compute the initial state and to call the integrator on the span
    from the first to the last grid point. *)
Theorem integrate_asserts_surface_start (self : session) (t0 : R) (rest : list R) :
  (t0 <> 0 -> integrate self (t0 :: rest) = ([], Raises AssertionError))
  /\ (t0 = 0 ->
      integrate self (t0 :: rest)
      = (y0 <- initial self ;;
         solution <- solve_ivp_RK23 (dydt self) (0, last (0 :: rest) 0) y0
                       (0 :: rest) (eps self) ;;
         ret (sol_y solution, sol_message solution))).
Proof.
  split; intros Ht; unfold integrate.
  - now rewrite (Reqb_false _ _ Ht).
  - subst t0. now rewrite (Reqb_true 0 0 eq_refl).
Qed.
Lemma P_norm_set_z0 (s : session) (z : R) :
  P_norm (set_z0 s z) = (4 / 3) * Q_norm s / (alpha s * z * omegaK s).
Proof. reflexivity. Qed.

Lemma T_norm_set_z0 (s : session) (z : R) :
  T_norm (set_z0 s z) = omegaK s ^ 2 * mu s * z ^ 2 / R_gas.
Proof. reflexivity. Qed.

Lemma sigma_norm_set_z0 (s : session) (z : R) :
  sigma_norm (set_z0 s z)
  = 28 * Q_norm s / (3 * alpha s * z ^ 2 * omegaK s ^ 3).
Proof. reflexivity. Qed.

Lemma set_z0_frame (s : session) (z : R) :
  let s' := set_z0 s z in
  mu s' = mu s /\ Mx s' = Mx s /\ GM s' = GM s /\ alpha s' = alpha s
  /\ r s' = r s /\ F s' = F s /\ omegaK s' = omegaK s /\ eps s' = eps s
  /\ Q_norm s' = Q_norm s /\ Q0 s' = Q0 s /\ Teff s' = Teff s.
Proof. repeat split. Qed.

(** The inputs and the constants derived from them alone are never
    touched by an assignment to [z0]. *)
Lemma set_z0_many_frame (zs : list R) (s : session) :
  let s' := fold_left set_z0 zs s in
  mu s' = mu s /\ Mx s' = Mx s /\ GM s' = GM s /\ alpha s' = alpha s
  /\ r s' = r s /\ F s' = F s /\ omegaK s' = omegaK s /\ eps s' = eps s
  /\ Q_norm s' = Q_norm s /\ Q0 s' = Q0 s /\ Teff s' = Teff s.
Proof.
  revert s. induction zs as [| z zs IH]; intros s.
  - repeat split.
  - exact (IH (set_z0 s z)).
Qed.

(** C6: after construction and any earlier assignments, assigning [z] to
    [z0] sets [P_norm], [T_norm] and [sigma_norm] to closed-form functions
    of the physical inputs and [z] alone (so equal inputs and equal [z]
    give equal scale constants), and leaves [Teff], [Q_norm], [omegaK] and
    the physical inputs as the constructor set them. *)
Theorem z0_assignment_rescales (Mx_ alpha_ r_ F_ eps_ mu_ : R) (zs : list R) (z : R) :
  exists s0 : session,
    __init__ Mx_ alpha_ r_ F_ eps_ mu_ = ([], Returns s0)
    /\ let s := set_z0 (fold_left set_z0 zs s0) z in
       z0 s = z
       /\ P_norm s = P_norm_of Mx_ alpha_ r_ F_ z
       /\ T_norm s = T_norm_of Mx_ r_ mu_ z
       /\ sigma_norm s = sigma_norm_of Mx_ alpha_ r_ F_ z
       /\ Teff s = Teff s0 /\ Teff s = Teff_of Mx_ r_ F_
       /\ Q_norm s = Q_norm s0 /\ Q_norm s = Q_norm_of Mx_ r_ F_
       /\ omegaK s = omegaK s0 /\ omegaK s = omegaK_of Mx_ r_
       /\ Mx s = Mx_ /\ alpha s = alpha_ /\ r s = r_ /\ F s = F_
       /\ eps s = eps_ /\ mu s = mu_.
Proof.
  eexists. split; [reflexivity |].
  set (s0 := set_Teff _ _).
  destruct (set_z0_many_frame zs s0)
    as (Hmu & HMx & HGM & Ha & Hr & HF & Hw & He & HQ & HQ0 & HT).
  cbv zeta in *.
  rewrite P_norm_set_z0, T_norm_set_z0, sigma_norm_set_z0.
  destruct (set_z0_frame (fold_left set_z0 zs s0) z)
    as (Hmu' & HMx' & HGM' & Ha' & Hr' & HF' & Hw' & He' & HQ' & HQ0' & HT').
  rewrite Hmu', HMx', Ha', Hr', HF', Hw', He', HQ', HT'.
  rewrite Hmu, HMx, Ha, Hr, HF, Hw, He, HQ, HT.
  subst s0. repeat split; reflexivity.
Qed.

Lemma last_item_snoc {A} (xs : list A) (x : A) : last_item (xs ++ [x]) = ret x.
Proof. unfold last_item. now rewrite rev_unit. Qed.

(** C7: when the integrator, called on the photospheric pressure
    equation over [[0, 2/3]] from the starting value [1e-7 * P_norm],
    returns samples that end with [p], the photospheric pressure [P_ph]
    is that last sample [p], and the initial state of the interior
    integration is [S = 0], [P = p / P_norm], [Q = 1] and
    [T = (Q_norm / sigmaSB)^(1/4) / T_norm].  The right side of the
    pressure equation takes the temperature
    [Teff * (1/2 + 3 tau/4)^(1/4)], the density from the equation of state
    and the opacity from the opacity law. *)
Theorem initial_conditions (self : session) (tr : list event)
    (solution : OdeResult R) (ys : list R) (p : R) :
  solve_ivp_RK45 (photospheric_pressure_equation self) (0, 2 / 3)
    (1e-7 * P_norm self) (eps self)
  = (tr, Returns solution) ->
  sol_y solution = ys ++ [p] ->
  P_ph self = (tr, Returns p)
  /\ initial self
     = (tr, Returns {| yS := 0;
                       yP := p / P_norm self;
                       yQ := 1;
                       yT := fpow (Q_norm self / sigmaSB) (1 / 4)
                             / T_norm self |})
  /\ forall tau P : R,
       let T := Teff self * fpow (1 / 2 + 3 * tau / 4) (1 / 4) in
       let rho := fst (law_of_rho self P T true) in
       let eos := snd (law_of_rho self P T true) in
       photospheric_pressure_equation self tau P
       = z0 self * omegaK self ^ 2 / law_of_opacity self rho T (lnfree_e eos).
Proof.
  intros Hsolve Hlast.
  assert (HP : P_ph self = (tr, Returns p)).
  { unfold P_ph. rewrite Hsolve. unfold bind. cbn [fst snd].
    rewrite Hlast, last_item_snoc. unfold with_trace, ret. cbn [fst snd].
    now rewrite app_nil_r. }
  split; [exact HP | split].
  - unfold initial, Q_initial. rewrite HP, Rmult_1_l.
    unfold bind, with_trace, ret. cbn [fst snd]. now rewrite app_nil_r.
  - intros tau P. cbv zeta. unfold photospheric_pressure_equation.
    destruct (law_of_rho self P _ true) as [rho eos]. reflexivity.
Qed.

(** The run of [dydt] on a state with negative [T] or [S]. *)
Lemma dydt_run_on_negative_state (self : session) (t : R) (y : yvec) :
  y.[Vars.T] < 0 \/ y.[Vars.S] < 0 ->
  let rho_ := fst (rho self y true) in
  let dP := rho_ * (1 - t) * omegaK self ^ 2 * z0 self ^ 2 / P_norm self in
  dydt self t y
  = ([Printed "S or T < 0"; Breakpoint],
     Returns {| yS := 2 * rho_ * z0 self / sigma_norm self;
                yP := dP;
                yQ := dQdz self y t;
                yT := dlnTdlnP self y t * dP * y.[Vars.T] / y.[Vars.P] |}).
Proof.
  intros Hneg. cbv zeta. unfold dydt.
  assert (Hc : (Rltb y.[Vars.T] 0 || Rltb y.[Vars.S] 0)%bool = true).
  { destruct Hneg as [Hn | Hn].
    - now rewrite (Rltb_true _ _ Hn).
    - rewrite (Rltb_true _ _ Hn). apply Bool.orb_true_r. }
  rewrite Hc. destruct (rho self y true) as [rho_ eos]. reflexivity.
Qed.

(** C3 (as the code has it): when [T] or [S] is negative on entry, [dydt]
    prints the message, calls [breakpoint()] and then returns the
    derivative computed from that same state; it raises nothing. *)
Theorem dydt_negative_state_continues (self : session) (t : R) (y : yvec) :
  y.[Vars.T] < 0 \/ y.[Vars.S] < 0 ->
  let rho_ := fst (rho self y true) in
  let dP := rho_ * (1 - t) * omegaK self ^ 2 * z0 self ^ 2 / P_norm self in
  dydt self t y
  = ([Printed "S or T < 0"; Breakpoint],
     Returns {| yS := 2 * rho_ * z0 self / sigma_norm self;
                yP := dP;
                yQ := dQdz self y t;
                yT := dlnTdlnP self y t * dP * y.[Vars.T] / y.[Vars.P] |}).
Proof. exact (dydt_run_on_negative_state self t y). Qed.

(** With [T] and [S] non-negative [dydt] is silent. *)
Lemma dydt_regular_state (self : session) (t : R) (y : yvec) :
  0 <= y.[Vars.T] -> 0 <= y.[Vars.S] ->
  let rho_ := fst (rho self y true) in
  let dP := rho_ * (1 - t) * omegaK self ^ 2 * z0 self ^ 2 / P_norm self in
  dydt self t y
  = ([], Returns {| yS := 2 * rho_ * z0 self / sigma_norm self;
                    yP := dP;
                    yQ := dQdz self y t;
                    yT := dlnTdlnP self y t * dP * y.[Vars.T] / y.[Vars.P] |}).
Proof.
  intros HT HS. cbv zeta. unfold dydt.
  rewrite (Rltb_false y.[Vars.T] 0), (Rltb_false y.[Vars.S] 0) by lra.
  destruct (rho self y true) as [rho_ eos]. reflexivity.
Qed.

(** C5 (as the code has it): the constructor checks nothing.  For
    positive mass, radius and torque and any positive [alpha], also one
    at or above 1, it returns a session that stores the inputs as given,
    with no output and no exception. *)
Theorem init_accepts_any_positive_alpha (Mx_ alpha_ r_ F_ eps_ mu_ : R) :
  0 < Mx_ -> 0 < r_ -> 0 < F_ -> 0 < alpha_ ->
  exists s : session,
    __init__ Mx_ alpha_ r_ F_ eps_ mu_ = ([], Returns s)
    /\ Mx s = Mx_ /\ alpha s = alpha_ /\ r s = r_ /\ F s = F_
    /\ eps s = eps_ /\ mu s = mu_.
Proof.
  intros _ _ _ _. eexists. split; [reflexivity |].
  repeat split; reflexivity.
Qed.
End Solver.

(** ** The radiative temperature gradient *)

Section Gradient.
Context `{Constants} `{EOSLaw} `{OpacityLaw}.

(** C2 (as the code has it): the radiative gradient takes its special
    closed form exactly at [t = 1], the midplane, and the general formula
    at every other [t]; at the surface [t = 0] it is the general formula. *)
Theorem radiative_gradient_special_case_at_midplane (self : session) (y : yvec) :
  let rho_ := fst (rho self y true) in
  let varkappa := opacity self y (lnfree_e (snd (rho self y true))) in
  RadiativeTempGradient_dlnTdlnP self y 1
  = dlnTdlnP_rad_midplane self y 1 varkappa
  /\ (forall t : R, t <> 1 ->
      RadiativeTempGradient_dlnTdlnP self y t
      = dlnTdlnP_rad_general self y t rho_ varkappa)
  /\ RadiativeTempGradient_dlnTdlnP self y 0
     = dlnTdlnP_rad_general self y 0 rho_ varkappa.
Proof.
  cbv zeta. unfold RadiativeTempGradient_dlnTdlnP.
  destruct (rho self y true) as [rho_ eos]. cbn [fst snd].
  split; [| split].
  - now rewrite (Reqb_true 1 1 eq_refl).
  - intros t Ht. now rewrite (Reqb_false _ _ Ht).
  - rewrite Reqb_false by lra. reflexivity.
Qed.

(** The pressure gradient in the denominator of the general formula
    carries the factor [1 - t]: it vanishes at [t = 1]. *)
Lemma general_form_pressure_gradient_at_midplane (self : session) (rho_ : R) :
  rho_ * (1 - 1) * omegaK self ^ 2 * z0 self ^ 2 / P_norm self = 0.
Proof. unfold Rdiv. ring. Qed.

(** Away from the midplane the two forms differ by the factor that
    replaces [|Q| / (1 - t)] with [- dQ/dt]. *)
Lemma general_form_vs_midplane_form (self : session) (y : yvec) (t rho_ varkappa : R) :
  t <> 1 -> rho_ <> 0 -> y.[Vars.T] <> 0 ->
  omegaK self <> 0 -> z0 self <> 0 -> P_norm self <> 0 -> T_norm self <> 0 ->
  Q_norm self <> 0 -> sigmaSB <> 0 ->
  dlnTdlnP_rad_general self y t rho_ varkappa * (1 - t) * (- dQdz self y t)
  = dlnTdlnP_rad_midplane self y t varkappa * Rabs y.[Vars.Q].
Proof.
  intros Ht Hrho HT Hw Hz HP HTn HQ Hs.
  unfold dlnTdlnP_rad_general, dlnTdlnP_rad_midplane, dQdz, viscosity,
    law_of_viscosity.
  field. repeat split; try assumption. lra.
Qed.
End Gradient.

(** ** Monotonicity of the mass coordinate *)

Section MassCoordinate.
Context `{Constants} `{EOSLaw} `{OpacityLaw} `{TempGradient}.

Lemma valid_sigma_norm_pos (s : session) : valid s -> 0 < sigma_norm s.
Proof.
  intros [[Ha _] _ _ _ Hw HQ Hz _ _ Hsig]. rewrite Hsig. positivity.
Qed.

Lemma valid_P_norm_pos (s : session) : valid s -> 0 < P_norm s.
Proof.
  intros [[Ha _] _ _ _ Hw HQ Hz HP _ _]. rewrite HP. positivity.
Qed.

Lemma valid_T_norm_pos (s : session) : 0 < R_gas -> valid s -> 0 < T_norm s.
Proof.
  intros HR [_ _ _ Hmu Hw _ Hz _ HT _]. rewrite HT. positivity.
Qed.

(** [dydt] always returns, and its [S] component is [2 rho z0 / sigma_norm]. *)
Lemma dydt_S_component (self : session) (t : R) (y : yvec) :
  exists tr dy,
    dydt self t y = (tr, Returns dy)
    /\ dy.[Vars.S] = 2 * fst (rho self y true) * z0 self / sigma_norm self.
Proof.
  destruct (Rlt_dec y.[Vars.T] 0) as [HT | HT].
  - eexists _, _. split.
    + apply dydt_run_on_negative_state. now left.
    + reflexivity.
  - destruct (Rlt_dec y.[Vars.S] 0) as [HS | HS].
    + eexists _, _. split.
      * apply dydt_run_on_negative_state. now right.
      * reflexivity.
    + eexists _, _. split.
      * apply dydt_regular_state; lra.
      * reflexivity.
Qed.

Lemma dS_nonneg (self : session) (y : yvec) :
  valid self -> 0 <= fst (rho self y true) ->
  0 <= 2 * fst (rho self y true) * z0 self / sigma_norm self.
Proof.
  intros Hv Hrho.
  pose proof (valid_sigma_norm_pos self Hv) as Hsig.
  pose proof (valid_z0 self Hv) as Hz.
  apply Rmult_le_pos.
  - apply Rmult_le_pos; [lra | lra].
  - left. now apply Rinv_0_lt_compat.
Qed.

(** For an exact solution: along a differentiable trajectory whose [S]
    slope is the one [dydt] returns, [S] is non-decreasing. *)
Lemma exact_trajectory_mass_coordinate (self : session) (y : R -> yvec) :
  valid self ->
  (forall t : R, 0 <= t <= 1 -> 0 <= fst (rho self (y t) true)) ->
  (forall t : R, 0 <= t <= 1 ->
     exists tr dy,
       dydt self t (y t) = (tr, Returns dy)
       /\ derivable_pt_lim (fun u => (y u).[Vars.S]) t dy.[Vars.S]) ->
  forall t1 t2 : R, 0 <= t1 -> t1 <= t2 -> t2 <= 1 ->
    (y t1).[Vars.S] <= (y t2).[Vars.S]
    /\ 0 <= 2 * fst (rho self (y t1) true) * z0 self / sigma_norm self.
Proof.
  intros Hv Hrho Hode t1 t2 Ht1 Ht12 Ht2.
  split; [| apply dS_nonneg; [assumption | apply Hrho; lra]].
  destruct (Req_dec_T t1 t2) as [-> | Hne]; [lra |].
  pose (f' := fun c => 2 * fst (rho self (y c) true) * z0 self / sigma_norm self).
  destruct (MVT_cor2 (fun u => (y u).[Vars.S]) f' t1 t2) as (c & Hc & Hin).
  - lra.
  - intros c Hc.
    destruct (Hode c ltac:(lra)) as (tr & dy & Hrun & Hder).
    destruct (dydt_S_component self c (y c)) as (tr' & dy' & Hrun' & HS).
    rewrite Hrun in Hrun'. injection Hrun' as _ <-.
    unfold f'. now rewrite <- HS.
  - assert (0 <= f' c) by (apply dS_nonneg; [assumption | apply Hrho; lra]).
    assert (0 <= f' c * (t2 - t1)) by (apply Rmult_le_pos; lra).
    lra.
Qed.
End MassCoordinate.

(** ** The shooting method *)

Section Shooting.
Context `{Constants} `{Scipy} `{EOSLaw} `{OpacityLaw} `{TempGradient}.

Lemma set_z0_overwrites (s : session) (w z : R) :
  set_z0 (set_z0 s w) z = set_z0 s z.
Proof. reflexivity. Qed.

(** The residual at [z0r] does not depend on the half-thickness left by
    an earlier evaluation. *)
Lemma dq_after_set_z0 (s : session) (w z0r : R) :
  dq z0r (set_z0 s w) = dq z0r s.
Proof. reflexivity. Qed.

Lemma bind_ret_triple {A B C} (m : M ((A * B) * C)) :
  ('((a, b), c) <- m ;; ret ((a, b), c)) = m.
Proof.
  destruct m as [tr [[[a b] c] | e | ]]; unfold bind, with_trace, ret; simpl;
    try rewrite app_nil_r; reflexivity.
Qed.

Lemma concat_map_seq_shift (trs : nat -> list event) (m : nat) :
  List.concat (map (fun k => trs (Datatypes.S k)) (seq 1 m))
  = List.concat (map trs (seq 2 m)).
Proof. rewrite <- (seq_shift m 1), map_map. reflexivity. Qed.

(** The loop stops at the first trial whose residual has the opposite
    sign, having evaluated [dq] once per expansion. *)
Lemma bracket_stops_at_first_sign_change
    (m : nat) (s : session) (factor d0 : R) :
  forall (fuel : nat) (z w : R) (trs : nat -> list event) (ds : nat -> R),
    (1 <= m <= fuel)%nat ->
    (forall k, (1 <= k <= m)%nat ->
       dq (z * factor ^ k) s
       = (trs k, Returns (ds k, set_z0 s (z * factor ^ k * r s)))) ->
    (forall k, (1 <= k < m)%nat -> ~ d0 * ds k < 0) ->
    d0 * ds m < 0 ->
    bracket fuel factor d0 z (set_z0 s w)
    = (List.concat (map trs (seq 1 m)),
       Returns (z * factor ^ m, set_z0 s (z * factor ^ m * r s))).
Proof.
  induction m as [| m IH]; intros fuel z w trs ds Hm Hrun Hsame Hflip; [lia |].
  destruct fuel as [| fuel]; [lia |].
  cbn [bracket]. rewrite dq_after_set_z0.
  assert (Hz1 : z * factor = z * factor ^ 1) by ring.
  rewrite Hz1 at 1. rewrite (Hrun 1%nat) by lia.
  unfold bind at 1. cbn [fst snd].
  destruct m as [| m].
  - rewrite Rltb_true by assumption.
    unfold with_trace, ret. cbn [fst snd List.concat map seq].
    rewrite Hz1. reflexivity.
  - rewrite Rltb_false by (apply Hsame; lia).
    rewrite (IH fuel (z * factor) (z * factor ^ 1 * r s)
               (fun k => trs (Datatypes.S k)) (fun k => ds (Datatypes.S k))).
    + unfold with_trace. cbn [fst snd].
      rewrite concat_map_seq_shift.
      replace (z * factor * factor ^ Datatypes.S m)
        with (z * factor ^ Datatypes.S (Datatypes.S m)) by (simpl; ring).
      reflexivity.
    + lia.
    + intros k Hk.
      replace (z * factor * factor ^ k) with (z * factor ^ Datatypes.S k)
        by (simpl; ring).
      apply Hrun. lia.
    + intros k Hk. apply Hsame. lia.
    + assumption.
Qed.

(** Without a sign change the loop uses up any fuel. *)
Lemma bracket_never_stops (s : session) (factor d0 : R)
    (trs : nat -> list event) (ds : nat -> R) (fuel : nat) :
  forall (z w : R) (j : nat),
    (forall k, (1 <= k)%nat ->
       dq (z * factor ^ k) s
       = (trs (j + k)%nat, Returns (ds (j + k)%nat, set_z0 s (z * factor ^ k * r s)))
       /\ ~ d0 * ds (j + k)%nat < 0) ->
    bracket fuel factor d0 z (set_z0 s w)
    = (List.concat (map trs (seq (Datatypes.S j) fuel)), OutOfFuel).
Proof.
  induction fuel as [| fuel IH]; intros z w j Hrun; [reflexivity |].
  cbn [bracket]. rewrite dq_after_set_z0.
  assert (Hz1 : z * factor = z * factor ^ 1) by ring.
  rewrite Hz1 at 1. destruct (Hrun 1%nat ltac:(lia)) as [Hdq Hsame].
  rewrite Hdq. unfold bind at 1. cbn [fst snd].
  rewrite Rltb_false by assumption.
  rewrite (IH (z * factor) (z * factor ^ 1 * r s) (Datatypes.S j)).
  - unfold with_trace. cbn [fst snd seq map List.concat].
    now rewrite Nat.add_1_r.
  - intros k Hk.
    replace (z * factor * factor ^ k) with (z * factor ^ Datatypes.S k)
      by (simpl; ring).
    replace (Datatypes.S j + k)%nat with (j + Datatypes.S k)%nat by lia.
    apply Hrun. lia.
Qed.
(** C1: [fit] evaluates the residual [dq] at the current [z0 / r]; takes
    the factor 2 when that residual is positive and 0.5 when it is
    negative; multiplies the trial value by the factor, evaluating [dq]
    each time, until the product of the first residual and the new one is
    negative; and returns what [brentq] returns on [dq] between the last
    trial value and the one before it.  [n] is the number of expansions
    up to the first sign change.  On a session fresh from the constructor
    the starting [z0] is the closed-form estimate. *)
Theorem fit_brackets_then_refines (s : session) (n : nat)
    (tr0 : list event) (d0 : R) (trs : nat -> list event) (ds : nat -> R) :
  let z := z0 s / r s in
  let factor := if Rltb 0 d0 then 2.0 else 0.5 in
  dq z s = (tr0, Returns (d0, set_z0 s (z * r s))) ->
  (forall k, (1 <= k <= n)%nat ->
     dq (z * factor ^ k) s
     = (trs k, Returns (ds k, set_z0 s (z * factor ^ k * r s)))) ->
  (forall k, (1 <= k < n)%nat -> ~ d0 * ds k < 0) ->
  d0 * ds n < 0 ->
  (1 <= n)%nat ->
  forall fuel : nat, (n <= fuel)%nat ->
    (0 < d0 -> factor = 2)
    /\ (d0 < 0 -> factor = 0.5)
    /\ fit fuel s
       = with_trace (tr0 ++ List.concat (map trs (seq 1 n)))
           (brentq dq (z * factor ^ n) (z * factor ^ n / factor)
              (set_z0 s (z * factor ^ n * r s)))
    /\ (forall Mx_ alpha_ r_ F_ eps_ mu_ : R,
         exists s0 : session,
           __init__ Mx_ alpha_ r_ F_ eps_ mu_ = ([], Returns s0)
           /\ z0 s0
              = r_ * 2.86e-7 * fpow F_ (3 / 20) * fpow (Mx_ / M_sun) (-9 / 20)
                * fpow alpha_ (-1 / 10) * fpow (r_ / 1e10) (1 / 20)).
Proof.
  intros z factor Hdq0 Hrun Hsame Hflip Hn fuel Hfuel.
  split; [| split; [| split]];
    [ | | | intros; eexists; split; reflexivity ].
  - intros Hpos. unfold factor. rewrite Rltb_true by assumption. lra.
  - intros Hneg. unfold factor. rewrite Rltb_false by lra. reflexivity.
  - unfold fit. fold z. rewrite Hdq0.
    unfold bind at 1. cbn [fst snd]. fold factor.
    rewrite (bracket_stops_at_first_sign_change n s factor d0 fuel z (z * r s)
               trs ds) by (try assumption; lia).
    unfold bind at 1. cbn [fst snd].
    rewrite bind_ret_triple, with_trace_app. reflexivity.
Qed.

Lemma fit_out_of_fuel_without_sign_change (s : session)
    (tr0 : list event) (d0 : R) (trs : nat -> list event) (ds : nat -> R) :
  let z := z0 s / r s in
  let factor := if Rltb 0 d0 then 2.0 else 0.5 in
  dq z s = (tr0, Returns (d0, set_z0 s (z * r s))) ->
  (forall k, (1 <= k)%nat ->
     dq (z * factor ^ k) s
     = (trs k, Returns (ds k, set_z0 s (z * factor ^ k * r s)))
     /\ ~ d0 * ds k < 0) ->
  forall fuel : nat,
    fit fuel s = (tr0 ++ List.concat (map trs (seq 1 fuel)), OutOfFuel).
Proof.
  intros z factor Hdq0 Hrun fuel.
  unfold fit. fold z. rewrite Hdq0.
  unfold bind at 1. cbn [fst snd]. fold factor.
  rewrite (bracket_never_stops s factor d0 trs ds fuel z (z * r s) 0)
    by exact Hrun.
  reflexivity.
Qed.

End Shooting.

(** ** The solver run with one Euler step and a grey opacity *)

Section EulerGrey.
Context `{Constants} `{EOSLaw} `{TempGradient}.
Local Existing Instance Fixture.EulerScipy.
Local Existing Instance Fixture.GreyOpacity.

Lemma euler_grey_P_ph (s : session) :
  P_ph s
  = ([], Returns (1e-7 * P_norm s + (2 / 3 - 0) * (z0 s * omegaK s ^ 2 / 0.4))).
Proof.
  unfold P_ph. cbn [solve_ivp_RK45 Fixture.EulerScipy Fixture.euler_scalar].
  rewrite bind_ret_l. cbn [sol_y last_item rev app].
  unfold photospheric_pressure_equation.
  destruct (law_of_rho s _ _ true) as [rho_ eos].
  reflexivity.
Qed.

Lemma euler_grey_y_c_Q (s : session) :
  0 < T_norm s ->
  exists y : yvec,
    y_c s = ([], Returns y)
    /\ y.[Vars.Q]
       = 1 + (1 - 0)
             * dQdz s
                 {| yS := 0;
                    yP := (1e-7 * P_norm s
                           + (2 / 3 - 0) * (z0 s * omegaK s ^ 2 / 0.4))
                          / P_norm s;
                    yQ := 1;
                    yT := fpow (Q_norm s / sigmaSB) (1 / 4) / T_norm s |} 0.
Proof.
  intros HT.
  unfold y_c, integrate. rewrite (Reqb_true 0 0 eq_refl).
  unfold initial, Q_initial. rewrite Rmult_1_l.
  rewrite euler_grey_P_ph, bind_nil_returns, bind_ret_l.
  cbn [solve_ivp_RK23 Fixture.EulerScipy Fixture.euler_system last].
  rewrite dydt_regular_state.
  - eexists. split.
    + rewrite bind_nil_returns, bind_ret_l, bind_ret_l.
      cbn [fst sol_y last_item rev app]. reflexivity.
    + reflexivity.
  - cbn [get yT]. left. apply Rdiv_lt_0_compat; [apply fpow_pos | assumption].
  - cbn [get yS]. lra.
Qed.

(** The residual of the shooting method in closed form. *)
Lemma euler_grey_dq (s : session) (z : R) :
  0 < R_gas -> 0 < alpha s -> 0 < omegaK s -> 0 < Q_norm s -> 0 < mu s ->
  0 < r s -> 0 < z ->
  dq z s
  = ([], Returns (1 - 2e-7
                  - alpha s * (z * r s) ^ 2 * omegaK s ^ 3 / (Q_norm s * 0.4),
                  set_z0 s (z * r s))).
Proof.
  intros HR Ha Hw HQ Hmu Hr Hz.
  unfold dq.
  destruct (euler_grey_y_c_Q (set_z0 s (z * r s))) as (y & Hy & HyQ).
  - rewrite T_norm_set_z0. positivity.
  - rewrite Hy, bind_nil_returns, HyQ. unfold ret. do 3 f_equal.
    unfold dQdz, viscosity, law_of_viscosity. cbn [get yP].
    rewrite P_norm_set_z0.
    cbn [set_z0 z0 omegaK alpha Q_norm].
    field. repeat split; lra.
Qed.
End EulerGrey.

(** ** Sign of the radiative gradient *)

Section GradientSign.
Context `{Constants} `{EOSLaw} `{OpacityLaw}.

Lemma minus_dQdz_valid (s : session) (y : yvec) (t : R) :
  valid s -> - dQdz s y t = 2 * y.[Vars.P].
Proof.
  intros Hv. pose proof (valid_alpha s Hv) as [Ha _].
  pose proof (valid_omegaK s Hv). pose proof (valid_Q_norm s Hv).
  pose proof (valid_z0 s Hv).
  unfold dQdz, viscosity, law_of_viscosity. rewrite (valid_P_norm s Hv).
  field. repeat split; lra.
Qed.

Lemma midplane_form_pos (s : session) (y : yvec) (t varkappa : R) :
  valid s -> 0 < sigmaSB -> 0 < R_gas ->
  0 < y.[Vars.P] -> 0 < y.[Vars.T] -> 0 < varkappa ->
  0 < dlnTdlnP_rad_midplane s y t varkappa.
Proof.
  intros Hv Hs HR HP HT Hk.
  pose proof (valid_P_norm_pos s Hv). pose proof (valid_T_norm_pos s HR Hv).
  pose proof (valid_omegaK s Hv). pose proof (valid_Q_norm s Hv).
  pose proof (valid_z0 s Hv).
  unfold dlnTdlnP_rad_midplane. rewrite (minus_dQdz_valid s y t Hv).
  positivity.
Qed.

Lemma surface_value_below_midplane_form (s : session) (y : yvec) :
  valid s -> 0 < sigmaSB -> 0 < R_gas ->
  y.[Vars.P] = 1 -> y.[Vars.T] = 1 -> y.[Vars.Q] = 1 ->
  0 < fst (rho s y true) ->
  0 < opacity s y (lnfree_e (snd (rho s y true))) ->
  RadiativeTempGradient_dlnTdlnP s y 0
  < dlnTdlnP_rad_midplane s y 0 (opacity s y (lnfree_e (snd (rho s y true)))).
Proof.
  intros Hv Hs HR HP HT HQ Hrho Hk.
  pose proof (valid_P_norm_pos s Hv). pose proof (valid_T_norm_pos s HR Hv).
  pose proof (valid_omegaK s Hv). pose proof (valid_Q_norm s Hv).
  pose proof (valid_z0 s Hv).
  pose proof (midplane_form_pos s y 0 _ Hv Hs HR ltac:(lra) ltac:(lra) Hk) as Hpos.
  unfold RadiativeTempGradient_dlnTdlnP.
  destruct (rho s y true) as [rho_ eos]. cbn [fst snd] in *.
  rewrite Reqb_false by lra.
  pose proof (general_form_vs_midplane_form s y 0 rho_
                (opacity s y (lnfree_e eos))) as Hrel.
  rewrite (minus_dQdz_valid s y 0 Hv), HP, HQ, Rabs_R1 in Hrel.
  specialize (Hrel ltac:(lra) ltac:(lra) ltac:(lra) ltac:(lra) ltac:(lra)
                ltac:(lra) ltac:(lra) ltac:(lra) ltac:(lra)).
  lra.
Qed.
End GradientSign.

(** ** Examples with the ideal gas and the Kramers opacity *)

Section KramersExamples.
Local Existing Instance Fixture.cgs.
Local Existing Instance KramersOpacityMixin.mixin.
Local Existing Instance IdealGasMixin.
Local Existing Instance RadiativeTempGradient.

Lemma fixture_valid (a z : R) : 0 < a < 1 -> 0 < z -> valid (Fixture.session_at a z).
Proof.
  intros Ha Hz. constructor; cbn; unfold default_mu; try lra; try reflexivity.
Qed.

Lemma ideal_gas_density_pos (s : session) (y : yvec) :
  0 < mu s -> 0 < P_norm s -> 0 < T_norm s ->
  0 < y.[Vars.P] -> 0 < y.[Vars.T] ->
  0 < fst (rho s y true) /\ 0 < rho s y false.
Proof.
  intros Hmu HP HT HyP HyT.
  assert (0 < R_gas) by (cbn; lra).
  unfold rho. cbn [law_of_rho IdealGasMixin IdealGas_law_of_rho fst].
  split; positivity.
Qed.

Lemma kramers_opacity_pos (s : session) (y : yvec) (e : R) :
  0 < rho s y false -> 0 < opacity s y e.
Proof.
  intros Hrho. unfold opacity.
  cbn [law_of_opacity KramersOpacityMixin.mixin].
  unfold KramersOpacityMixin.law_of_opacity, KramersOpacityMixin.varkappa0.
  positivity.
Qed.

(** C2, counterexample: at the surface [t = 0] the gradient is strictly
    below the special closed form, so it is not that form. *)
Lemma surface_gradient_is_not_the_special_form :
  let s := Fixture.session_at (1 / 2) 1 in
  let y := Fixture.unit_state 0 in
  RadiativeTempGradient_dlnTdlnP s y 0
  < dlnTdlnP_rad_midplane s y 0 (opacity s y (lnfree_e (snd (rho s y true)))).
Proof.
  intros s y.
  assert (Hv : valid s) by (apply fixture_valid; lra).
  assert (HR : 0 < R_gas) by (cbn; lra).
  assert (Hs : 0 < sigmaSB) by (cbn; lra).
  destruct (ideal_gas_density_pos s y) as [Hrho Hrho'].
  - apply (valid_mu s Hv).
  - apply (valid_P_norm_pos s Hv).
  - apply (valid_T_norm_pos s HR Hv).
  - cbn. lra.
  - cbn. lra.
  - apply surface_value_below_midplane_form; try assumption; try reflexivity.
    now apply kramers_opacity_pos.
Qed.

(** The session of the examples is the one the constructor returns. *)
Lemma fixture_constructed (a : R) :
  __init__ (1 / G) a 1 (8 * PI / 3) default_eps default_mu
  = ret (Fixture.constructed a).
Proof.
  unfold __init__, Fixture.constructed. cbv zeta.
  assert (Hw : sqrt (G * (1 / G) / 1 ^ 3) = 1).
  { replace (G * (1 / G) / 1 ^ 3) with 1 by (cbn; lra). apply sqrt_1. }
  assert (Hgm : @G Fixture.cgs * (1 / G) = 1) by (cbn; lra).
  rewrite Hw, Hgm.
  replace (3 / (8 * PI) * (8 * PI / 3) * 1 / 1 ^ 2) with 1
    by (field; apply PI_neq0).
  reflexivity.
Qed.

(** C3, counterexample: with [T = -1] the right side returns a
    derivative after the message and the breakpoint; nothing is raised. *)
Lemma dydt_negative_temperature_returns :
  exists dy : yvec,
    dydt (Fixture.session_at (1 / 2) 1) 0 {| yS := 0; yP := 1; yQ := 1; yT := -1 |}
    = ([Printed "S or T < 0"; Breakpoint], Returns dy).
Proof.
  eexists. apply dydt_run_on_negative_state. left. cbn. lra.
Qed.

Lemma dydt_negative_state_continues_witness :
  let self := Fixture.session_at (1 / 2) 1 in
  let y := {| yS := 0; yP := 1; yQ := 1; yT := -1 |} in
  let rho_ := fst (rho self y true) in
  let dP := rho_ * (1 - 0) * omegaK self ^ 2 * z0 self ^ 2 / P_norm self in
  dydt self 0 y
  = ([Printed "S or T < 0"; Breakpoint],
     Returns {| yS := 2 * rho_ * z0 self / sigma_norm self;
                yP := dP;
                yQ := dQdz self y 0;
                yT := dlnTdlnP self y 0 * dP * y.[Vars.T] / y.[Vars.P] |}).
Proof.
  intros self y.
  apply (dydt_negative_state_continues self 0 y).
  left. cbn. lra.
Defined.

(** C5, counterexample: [alpha = 2] is accepted. *)
Lemma init_accepts_alpha_two :
  exists s : session,
    __init__ (10 * M_sun) 2 1e10 1e35 default_eps default_mu = ([], Returns s)
    /\ alpha s = 2.
Proof. eexists. split; reflexivity. Qed.

Lemma init_accepts_any_positive_alpha_witness :
  exists s : session,
    __init__ (10 * M_sun) 2 1e10 1e35 default_eps default_mu = ([], Returns s)
    /\ Mx s = 10 * M_sun /\ alpha s = 2 /\ r s = 1e10 /\ F s = 1e35
    /\ eps s = default_eps /\ mu s = default_mu.
Proof.
  apply (init_accepts_any_positive_alpha (10 * M_sun) 2 1e10 1e35
           default_eps default_mu); cbv [M_sun Fixture.cgs]; lra.
Defined.

End KramersExamples.

(** ** Examples of the shooting method *)

Section EulerGreyExamples.
Local Existing Instance Fixture.cgs.
Local Existing Instance Fixture.EulerScipy.
Local Existing Instance Fixture.GreyOpacity.
Local Existing Instance IdealGasMixin.
Local Existing Instance RadiativeTempGradient.

Lemma concat_map_nil (A : Type) (l : list nat) :
  List.concat (map (fun _ : nat => @nil A) l) = [].
Proof. induction l; simpl; auto. Qed.

Lemma fixture_dq (a w z : R) :
  0 < a -> 0 < z ->
  dq z (Fixture.session_at a w)
  = ([], Returns (Fixture.residual a z,
                  set_z0 (Fixture.session_at a w) (z * r (Fixture.session_at a w)))).
Proof.
  intros Ha Hz.
  rewrite euler_grey_dq; try assumption.
  - do 3 f_equal. unfold Fixture.residual.
    cbn [Fixture.session_at Fixture.constructed set_z0 set_Teff alpha r
         omegaK Q_norm].
    field; lra.
  - cbv [R_gas Fixture.cgs]. lra.
  - cbn [Fixture.session_at Fixture.constructed set_z0 set_Teff omegaK]. lra.
  - cbn [Fixture.session_at Fixture.constructed set_z0 set_Teff Q_norm]. lra.
  - cbn [Fixture.session_at Fixture.constructed set_z0 set_Teff mu].
    unfold default_mu. lra.
  - cbn [Fixture.session_at Fixture.constructed set_z0 set_Teff r]. lra.
Qed.

Lemma fit_brackets_then_refines_witness :
  let s := Fixture.session_at (1 / 2) (1 / 2) in
  let z := z0 s / r s in
  let d0 := Fixture.residual (1 / 2) z in
  let factor := if Rltb 0 d0 then 2.0 else 0.5 in
  (0 < d0 -> factor = 2)
  /\ (d0 < 0 -> factor = 0.5)
  /\ fit 1 s
     = with_trace ([] ++ List.concat (map (fun _ : nat => []) (seq 1 1)))
         (brentq dq (z * factor ^ 1) (z * factor ^ 1 / factor)
            (set_z0 s (z * factor ^ 1 * r s)))
  /\ (forall Mx_ alpha_ r_ F_ eps_ mu_ : R,
       exists s0 : session,
         __init__ Mx_ alpha_ r_ F_ eps_ mu_ = ([], Returns s0)
         /\ z0 s0
            = r_ * 2.86e-7 * fpow F_ (3 / 20) * fpow (Mx_ / M_sun) (-9 / 20)
              * fpow alpha_ (-1 / 10) * fpow (r_ / 1e10) (1 / 20)).
Proof.
  intros s z d0 factor.
  assert (Hz : z = 1 / 2) by (unfold z; cbn; lra).
  assert (Hd0 : 0 < d0) by (unfold d0, Fixture.residual; rewrite Hz; lra).
  assert (Hf : factor = 2) by (unfold factor; rewrite Rltb_true by assumption; lra).
  apply (fit_brackets_then_refines s 1 [] d0 (fun _ => [])
           (fun k => Fixture.residual (1 / 2) (z * factor ^ k))).
  - apply fixture_dq; [lra | change (0 < z); lra].
  - intros k Hk. apply fixture_dq; [lra |].
    change (0 < z * factor ^ k). rewrite Hf, Hz. positivity.
  - intros k Hk. lia.
  - change (d0 * Fixture.residual (1 / 2) (z * factor ^ 1) < 0).
    rewrite Hf. unfold d0, Fixture.residual. rewrite Hz. lra.
  - lia.
  - lia.
Defined.

End EulerGreyExamples.

(** ** Further properties of the shooting method *)

Section ShootingFurther.
Context `{Constants} `{Scipy} `{EOSLaw} `{OpacityLaw} `{TempGradient}.

(** X1: the residual [dq z0r] is the same, trace and final session
    included, whatever half-thicknesses were assigned to the session
    before: earlier trials leave nothing behind. *)
Theorem dq_forgets_earlier_trials (s : session) (zs : list R) (z0r : R) :
  dq z0r (fold_left set_z0 zs s) = dq z0r s.
Proof.
  revert s. induction zs as [| z zs IH]; intros s; [reflexivity |].
  cbn [fold_left]. rewrite IH. apply dq_after_set_z0.
Qed.

(** The loop ends with the exception of the first trial that raises. *)
Lemma bracket_raises_at_failing_trial
    (m : nat) (s : session) (factor d0 : R) (e : exn) :
  forall (fuel : nat) (z w : R) (trs : nat -> list event) (ds : nat -> R),
    (1 <= m <= fuel)%nat ->
    (forall k, (1 <= k < m)%nat ->
       dq (z * factor ^ k) s
       = (trs k, Returns (ds k, set_z0 s (z * factor ^ k * r s)))
       /\ ~ d0 * ds k < 0) ->
    dq (z * factor ^ m) s = (trs m, Raises e) ->
    bracket fuel factor d0 z (set_z0 s w)
    = (List.concat (map trs (seq 1 m)), Raises e).
Proof.
  induction m as [| m IH]; intros fuel z w trs ds Hm Hrun Hfail; [lia |].
  destruct fuel as [| fuel]; [lia |].
  cbn [bracket]. rewrite dq_after_set_z0.
  assert (Hz1 : z * factor = z * factor ^ 1) by ring.
  rewrite Hz1 at 1.
  destruct m as [| m].
  - rewrite Hfail. unfold bind. cbn [fst snd List.concat map seq].
    now rewrite app_nil_r.
  - destruct (Hrun 1%nat ltac:(lia)) as [Hdq Hsame].
    rewrite Hdq. unfold bind at 1. cbn [fst snd].
    rewrite Rltb_false by assumption.
    rewrite (IH fuel (z * factor) (z * factor ^ 1 * r s)
               (fun k => trs (Datatypes.S k)) (fun k => ds (Datatypes.S k))).
    + unfold with_trace. cbn [fst snd].
      now rewrite concat_map_seq_shift.
    + lia.
    + intros k Hk.
      replace (z * factor * factor ^ k) with (z * factor ^ Datatypes.S k)
        by (simpl; ring).
      apply Hrun. lia.
    + replace (z * factor * factor ^ Datatypes.S m)
        with (z * factor ^ Datatypes.S (Datatypes.S m)) by (simpl; ring).
      exact Hfail.
Qed.

(** X2: when the evaluation of the residual raises at the [n]-th
    expansion, no earlier trial having changed sign, [fit] raises the
    same exception after the output of the trials made so far; [brentq]
    is not reached. *)
Theorem fit_propagates_trial_failure (s : session) (n : nat) (e : exn)
    (tr0 : list event) (d0 : R) (trs : nat -> list event) (ds : nat -> R) :
  let z := z0 s / r s in
  let factor := if Rltb 0 d0 then 2.0 else 0.5 in
  dq z s = (tr0, Returns (d0, set_z0 s (z * r s))) ->
  (forall k, (1 <= k < n)%nat ->
     dq (z * factor ^ k) s
     = (trs k, Returns (ds k, set_z0 s (z * factor ^ k * r s)))
     /\ ~ d0 * ds k < 0) ->
  dq (z * factor ^ n) s = (trs n, Raises e) ->
  (1 <= n)%nat ->
  forall fuel : nat, (n <= fuel)%nat ->
    fit fuel s = (tr0 ++ List.concat (map trs (seq 1 n)), Raises e).
Proof.
  intros z factor Hdq0 Hrun Hfail Hn fuel Hfuel.
  unfold fit. fold z. rewrite Hdq0.
  unfold bind at 1. cbn [fst snd]. fold factor.
  rewrite (bracket_raises_at_failing_trial n s factor d0 e fuel z (z * r s)
             trs ds) by (try assumption; lia).
  reflexivity.
Qed.

(** X3: the two ends of the interval that [fit] hands to [brentq] are
    the last trial value and the one before it, and the residuals there
    do not have the same strict sign: their product is at most zero, and
    the residual at the last trial is not zero. *)
Theorem fit_hands_brentq_a_bracket (s : session) (n : nat)
    (tr0 : list event) (d0 : R) (trs : nat -> list event) (ds : nat -> R) :
  let z := z0 s / r s in
  let factor := if Rltb 0 d0 then 2.0 else 0.5 in
  dq z s = (tr0, Returns (d0, set_z0 s (z * r s))) ->
  (forall k, (1 <= k <= n)%nat ->
     dq (z * factor ^ k) s
     = (trs k, Returns (ds k, set_z0 s (z * factor ^ k * r s)))) ->
  (forall k, (1 <= k < n)%nat -> ~ d0 * ds k < 0) ->
  d0 * ds n < 0 ->
  (1 <= n)%nat ->
  forall fuel : nat, (n <= fuel)%nat ->
    let a := z * factor ^ n in
    let b := a / factor in
    exists (tra trb : list event) (da db : R),
      fit fuel s
      = with_trace (tr0 ++ List.concat (map trs (seq 1 n)))
          (brentq dq a b (set_z0 s (a * r s)))
      /\ dq a s = (tra, Returns (da, set_z0 s (a * r s)))
      /\ dq b s = (trb, Returns (db, set_z0 s (b * r s)))
      /\ da * db <= 0 /\ da <> 0.
Proof.
  intros z factor Hdq0 Hrun Hsame Hflip Hn fuel Hfuel a b.
  assert (Hf : factor <> 0).
  { unfold factor. destruct (Rltb 0 d0); lra. }
  assert (Hfit : fit fuel s
                 = with_trace (tr0 ++ List.concat (map trs (seq 1 n)))
                     (brentq dq a b (set_z0 s (a * r s)))).
  { unfold fit. fold z. rewrite Hdq0.
    unfold bind at 1. cbn [fst snd]. fold factor.
    rewrite (bracket_stops_at_first_sign_change n s factor d0 fuel z (z * r s)
               trs ds) by (try assumption; lia).
    unfold bind at 1. cbn [fst snd].
    rewrite bind_ret_triple, with_trace_app. reflexivity. }
  assert (Hd0 : d0 <> 0) by (intros ->; lra).
  destruct n as [| [| n]]; [lia | |].
  - (* one expansion: the other end is the starting value *)
    assert (Hb : b = z) by (unfold b, a; field; exact Hf).
    exists (trs 1%nat), tr0, (ds 1%nat), d0.
    split; [exact Hfit |]. rewrite Hb. repeat split.
    + apply Hrun. lia.
    + exact Hdq0.
    + nra.
    + intros Hz. rewrite Hz in Hflip. lra.
  - assert (Hb : b = z * factor ^ Datatypes.S n)
      by (unfold b, a; simpl; field; exact Hf).
    exists (trs (Datatypes.S (Datatypes.S n))), (trs (Datatypes.S n)),
      (ds (Datatypes.S (Datatypes.S n))), (ds (Datatypes.S n)).
    split; [exact Hfit |]. rewrite Hb. repeat split.
    + apply Hrun. lia.
    + apply Hrun. lia.
    + assert (Hprev : ~ d0 * ds (Datatypes.S n) < 0) by (apply Hsame; lia).
      nra.
    + intros Hz. rewrite Hz in Hflip. lra.
Qed.
End ShootingFurther.

(** ** Further properties of the right side of the system *)

Section RightSide.
Context `{Constants} `{EOSLaw} `{OpacityLaw} `{TempGradient}.

(** [dydt] always returns, and these are its components. *)
Lemma dydt_components (self : session) (t : R) (y : yvec) :
  exists tr dy,
    dydt self t y = (tr, Returns dy)
    /\ dy.[Vars.S] = 2 * fst (rho self y true) * z0 self / sigma_norm self
    /\ dy.[Vars.P]
       = fst (rho self y true) * (1 - t) * omegaK self ^ 2 * z0 self ^ 2
         / P_norm self
    /\ dy.[Vars.Q] = dQdz self y t
    /\ dy.[Vars.T]
       = dlnTdlnP self y t * dy.[Vars.P] * y.[Vars.T] / y.[Vars.P].
Proof.
  destruct (Rlt_dec y.[Vars.T] 0) as [HT | HT].
  - eexists _, _. split.
    + apply dydt_run_on_negative_state. now left.
    + repeat split.
  - destruct (Rlt_dec y.[Vars.S] 0) as [HS | HS].
    + eexists _, _. split.
      * apply dydt_run_on_negative_state. now right.
      * repeat split.
    + eexists _, _. split.
      * apply dydt_regular_state; lra.
      * repeat split.
Qed.

Lemma valid_dQdz (s : session) (y : yvec) (t : R) :
  valid s -> dQdz s y t = - 2 * y.[Vars.P].
Proof.
  intros Hv. pose proof (valid_alpha s Hv) as [Ha _].
  pose proof (valid_omegaK s Hv). pose proof (valid_Q_norm s Hv).
  pose proof (valid_z0 s Hv).
  unfold dQdz, viscosity, law_of_viscosity. rewrite (valid_P_norm s Hv).
  field. repeat split; lra.
Qed.

(** X4: on a session whose norms agree with its half-thickness, the
    flux component of the right side is [-2 P] whatever the state, the
    coordinate, the half-thickness and the viscosity parameter are. *)
Theorem dydt_flux_slope (self : session) (t : R) (y : yvec) :
  valid self ->
  exists tr dy,
    dydt self t y = (tr, Returns dy) /\ dy.[Vars.Q] = - 2 * y.[Vars.P].
Proof.
  intros Hv.
  destruct (dydt_components self t y) as (tr & dy & Hrun & _ & _ & HQ & _).
  exists tr, dy. split; [exact Hrun |].
  rewrite HQ. now apply valid_dQdz.
Qed.

(** X5: on such a session the pressure component of the right side is
    [7/2 * (1 - t)] times the mass-coordinate component, for every
    equation of state. *)
Theorem dydt_pressure_follows_mass (self : session) (t : R) (y : yvec) :
  valid self ->
  exists tr dy,
    dydt self t y = (tr, Returns dy)
    /\ dy.[Vars.P] = 7 / 2 * (1 - t) * dy.[Vars.S].
Proof.
  intros Hv.
  destruct (dydt_components self t y) as (tr & dy & Hrun & HS & HP & _ & _).
  exists tr, dy. split; [exact Hrun |].
  pose proof (valid_alpha self Hv) as [Ha _].
  pose proof (valid_omegaK self Hv). pose proof (valid_Q_norm self Hv).
  pose proof (valid_z0 self Hv).
  rewrite HS, HP, (valid_P_norm self Hv), (valid_sigma_norm self Hv).
  field. repeat split; lra.
Qed.

(** X6: at the midplane [t = 1], on a valid session (non-zero norms)
    and for a state of non-zero pressure and temperature, the pressure
    and temperature components of the right side vanish. *)
Theorem dydt_midplane_is_stationary_in_P_and_T (self : session) (y : yvec) :
  valid self -> 0 < R_gas ->
  y.[Vars.P] <> 0 -> y.[Vars.T] <> 0 ->
  exists tr dy,
    dydt self 1 y = (tr, Returns dy)
    /\ dy.[Vars.P] = 0 /\ dy.[Vars.T] = 0.
Proof.
  intros Hv HR HyP HyT.
  pose proof (valid_P_norm_pos self Hv) as HPn.
  destruct (dydt_components self 1 y) as (tr & dy & Hrun & _ & HP & _ & HT).
  exists tr, dy. split; [exact Hrun |].
  assert (HP0 : dy.[Vars.P] = 0) by (rewrite HP; field; lra).
  split; [exact HP0 |].
  rewrite HT, HP0. field. exact HyP.
Qed.
End RightSide.

Section RadiativeRightSide.
Context `{Constants} `{EOSLaw} `{OpacityLaw}.
Local Existing Instance RadiativeTempGradient.

(** The slopes of the right side with the radiative gradient. *)
Lemma dydt_radiative_slopes_run (self : session) (t : R) (y : yvec) :
  valid self -> 0 < sigmaSB -> 0 < R_gas ->
  0 <= t < 1 ->
  0 < y.[Vars.P] -> 0 < y.[Vars.T] ->
  0 < fst (rho self y true) ->
  0 < opacity self y (lnfree_e (snd (rho self y true))) ->
  exists tr dy,
    dydt self t y = (tr, Returns dy)
    /\ 0 < dy.[Vars.S] /\ 0 < dy.[Vars.P] /\ dy.[Vars.Q] < 0
    /\ dy.[Vars.T]
       = (Rabs y.[Vars.Q] / y.[Vars.T] ^ 3) * 3
         * opacity self y (lnfree_e (snd (rho self y true)))
         * fst (rho self y true) * z0 self * Q_norm self
         / (16 * sigmaSB * T_norm self ^ 4)
    /\ 0 <= dy.[Vars.T].
Proof.
  intros Hv Hs HR Ht HP HT Hrho Hk.
  destruct (dydt_components self t y) as (tr & dy & Hrun & HdS & HdP & HdQ & HdT).
  exists tr, dy. split; [exact Hrun |].
  pose proof (valid_sigma_norm_pos self Hv) as Hsig.
  pose proof (valid_P_norm_pos self Hv) as HPn.
  pose proof (valid_T_norm_pos self HR Hv) as HTn.
  pose proof (valid_omegaK self Hv) as Hw.
  pose proof (valid_Q_norm self Hv) as HQn.
  pose proof (valid_z0 self Hv) as Hz.
  assert (HdSpos : 0 < dy.[Vars.S]) by (rewrite HdS; positivity).
  assert (HdPpos : 0 < dy.[Vars.P]) by (rewrite HdP; positivity).
  assert (HdQneg : dy.[Vars.Q] < 0)
    by (rewrite HdQ, (valid_dQdz self y t Hv); lra).
  assert (HdTeq : dy.[Vars.T]
       = (Rabs y.[Vars.Q] / y.[Vars.T] ^ 3) * 3
         * opacity self y (lnfree_e (snd (rho self y true)))
         * fst (rho self y true) * z0 self * Q_norm self
         / (16 * sigmaSB * T_norm self ^ 4)).
  { rewrite HdT, HdP.
    cbn [dlnTdlnP RadiativeTempGradient]. unfold RadiativeTempGradient_dlnTdlnP.
    destruct (rho self y true) as [rho_ eos]. cbn [fst snd] in *.
    rewrite Reqb_false by lra.
    unfold dlnTdlnP_rad_general. field. repeat split; lra. }
  repeat split; try assumption.
  rewrite HdTeq.
  pose proof (Rabs_pos y.[Vars.Q]) as HQabs.
  set (kappa := opacity self y (lnfree_e (snd (rho self y true)))) in *.
  set (rho_ := fst (rho self y true)) in *.
  replace (Rabs y.[Vars.Q] / y.[Vars.T] ^ 3 * 3 * kappa * rho_ * z0 self
           * Q_norm self / (16 * sigmaSB * T_norm self ^ 4))
    with (Rabs y.[Vars.Q]
          * (3 * kappa * rho_ * z0 self * Q_norm self
             / (y.[Vars.T] ^ 3 * (16 * sigmaSB * T_norm self ^ 4))))
    by (field; repeat split; lra).
  apply Rmult_le_pos; [exact HQabs | left; positivity].
Qed.

(** X7: with the radiative gradient, on a valid session and a state of
    positive pressure and temperature with positive density and opacity,
    strictly before the midplane: the mass coordinate and the pressure
    strictly increase, the flux strictly decreases, and the temperature
    component equals the radiative-diffusion slope
    [|Q| / T^3 * 3 kappa rho z0 Q_norm / (16 sigmaSB T_norm^4)], which is
    non-negative. *)
Theorem dydt_radiative_slopes (self : session) (t : R) (y : yvec) :
  valid self -> 0 < sigmaSB -> 0 < R_gas ->
  0 <= t < 1 ->
  0 < y.[Vars.P] -> 0 < y.[Vars.T] ->
  0 < fst (rho self y true) ->
  0 < opacity self y (lnfree_e (snd (rho self y true))) ->
  exists tr dy,
    dydt self t y = (tr, Returns dy)
    /\ 0 < dy.[Vars.S] /\ 0 < dy.[Vars.P] /\ dy.[Vars.Q] < 0
    /\ dy.[Vars.T]
       = (Rabs y.[Vars.Q] / y.[Vars.T] ^ 3) * 3
         * opacity self y (lnfree_e (snd (rho self y true)))
         * fst (rho self y true) * z0 self * Q_norm self
         / (16 * sigmaSB * T_norm self ^ 4)
    /\ 0 <= dy.[Vars.T].
Proof. exact (dydt_radiative_slopes_run self t y). Qed.
End RadiativeRightSide.

(** ** Invariants of a session *)

Section Invariants.
Context `{Constants} `{Scipy} `{EOSLaw} `{OpacityLaw} `{TempGradient}.

Lemma set_z0_valid (s : session) (z : R) :
  valid s -> 0 < z -> valid (set_z0 s z).
Proof.
  intros [Ha HMx Hr Hmu Hw HQ _ _ _ _] Hz.
  constructor; try assumption; reflexivity.
Qed.

Lemma set_z0_coherent (s : session) (z : R) :
  coherent s -> coherent (set_z0 s z).
Proof. intros [HGM Hw HQ HQ0 HT]. constructor; assumption. Qed.

Lemma dq_returns_inv (z0r : R) (s s' : session) (tr : list event) (d : R) :
  dq z0r s = (tr, Returns (d, s')) -> s' = set_z0 s (z0r * r s).
Proof.
  unfold dq, bind.
  destruct (y_c (set_z0 s (z0r * r s))) as [tr' [y | e | ]]; cbn [fst snd].
  - unfold with_trace, ret. cbn [fst snd]. intros Heq.
    injection Heq as _ _ Hs. now symmetry.
  - discriminate.
  - discriminate.
Qed.

(** X8: for positive constants, mass, radius, torque and molecular
    weight and a viscosity parameter in (0,1), the constructor returns a
    session in the physical range: the derived constants agree with the
    inputs, the half-thickness is the positive closed-form estimate, and
    the three norms agree with it. *)
Theorem init_establishes_invariants (Mx_ alpha_ r_ F_ eps_ mu_ : R) :
  positive_constants ->
  0 < Mx_ -> 0 < alpha_ < 1 -> 0 < r_ -> 0 < F_ -> 0 < mu_ ->
  exists s : session,
    __init__ Mx_ alpha_ r_ F_ eps_ mu_ = ([], Returns s)
    /\ valid s /\ coherent s /\ z0 s = z0_init s.
Proof.
  intros (Hs & HR & HG & HM) HMx Ha Hr HF Hmu.
  eexists. split; [reflexivity |].
  assert (Hw : 0 < sqrt (G * Mx_ / r_ ^ 3)) by (apply sqrt_lt_R0; positivity).
  pose proof PI_RGT_0 as Hpi.
  split; [| split].
  - constructor; cbn [alpha Mx r mu omegaK Q_norm z0 P_norm T_norm sigma_norm
                      set_Teff set_z0]; try assumption; try reflexivity.
    + positivity.
    + unfold z0_init. cbn [r F Mx alpha]. positivity.
  - constructor; reflexivity.
  - reflexivity.
Qed.

(** X9: an evaluation of the residual at a positive [z0r] that returns
    leaves the session in the physical range, with half-thickness
    [z0r * r] and the derived constants as before. *)
Theorem dq_keeps_session_valid (s s' : session) (z0r d : R) (tr : list event) :
  valid s -> 0 < z0r ->
  dq z0r s = (tr, Returns (d, s')) ->
  valid s' /\ z0 s' = z0r * r s /\ (coherent s -> coherent s').
Proof.
  intros Hv Hz Hrun.
  apply dq_returns_inv in Hrun. subst s'.
  split; [| split].
  - apply set_z0_valid; [assumption |].
    pose proof (valid_r s Hv). positivity.
  - reflexivity.
  - apply set_z0_coherent.
Qed.

(** What [parameters_C] returns when the integration to the midplane
    returns [y]. *)
Lemma parameters_C_run (s : session) (tr : list event) (y : yvec) :
  y_c s = (tr, Returns y) ->
  parameters_C s
  = (tr, Returns (opacity s y (lnfree_e (snd (rho s y true))),
                  fst (rho s y true),
                  y.[Vars.T] * T_norm s,
                  y.[Vars.P] * P_norm s,
                  y.[Vars.S] * sigma_norm s)).
Proof.
  intros Hy. unfold parameters_C. rewrite Hy.
  unfold bind. cbn [fst snd].
  destruct (rho s y true) as [rho_ eos]. cbn [fst snd].
  unfold with_trace, ret. cbn [fst snd]. now rewrite app_nil_r.
Qed.

(** X10: [Pi_finder] and [tau0] agree on the optical thickness: the
    fourth Pi parameter is [3/16 * (Teff / T_C)^4] times what [tau0]
    returns, [T_C] being the midplane temperature. *)
Theorem Pi_4_is_tau0_scaled (s : session) (tr : list event) (y : yvec) :
  y_c s = (tr, Returns y) ->
  exists Pi_1 Pi_2 Pi_3 Pi_4 tau : R,
    Pi_finder s = (tr, Returns (Pi_1, Pi_2, Pi_3, Pi_4))
    /\ tau0 s = (tr, Returns tau)
    /\ Pi_4 = 3 / 16 * (Teff s / (y.[Vars.T] * T_norm s)) ^ 4 * tau.
Proof.
  intros Hy. pose proof (parameters_C_run s tr y Hy) as HC.
  unfold Pi_finder, tau0. rewrite HC.
  unfold bind, with_trace, ret. cbn [fst snd]. rewrite app_nil_r.
  eexists _, _, _, _, _. split; [reflexivity |]. split; [reflexivity |].
  set (X := (Teff s / (y.[Vars.T] * T_norm s)) ^ 4).
  field.
Qed.
End Invariants.

(** ** The ideal gas at the midplane *)

Section IdealGasMidplane.
Context `{Constants} `{Scipy} `{OpacityLaw} `{TempGradient}.
Local Existing Instance IdealGasMixin.

Lemma ideal_gas_rho (s : session) (y : yvec) :
  fst (rho s y true)
  = y.[Vars.P] * P_norm s * mu s / (R_gas * (y.[Vars.T] * T_norm s))
  /\ rho s y false = fst (rho s y true)
  /\ lnfree_e (snd (rho s y true)) = 0.
Proof. repeat split. Qed.

(** X11: with the ideal gas, what [parameters_C] returns is consistent:
    density, temperature and pressure satisfy [rho R T = mu P], the
    opacity is the opacity law at that density and temperature, and the
    values are the midplane state times the norms. *)
Theorem parameters_C_satisfy_the_laws (s : session) (tr : list event) (y : yvec) :
  0 < R_gas -> 0 < T_norm s -> 0 < y.[Vars.T] ->
  y_c s = (tr, Returns y) ->
  exists varkappa_C rho_C T_C P_C Sigma0 : R,
    parameters_C s = (tr, Returns (varkappa_C, rho_C, T_C, P_C, Sigma0))
    /\ rho_C * R_gas * T_C = mu s * P_C
    /\ varkappa_C = law_of_opacity s rho_C T_C 0
    /\ T_C = y.[Vars.T] * T_norm s
    /\ P_C = y.[Vars.P] * P_norm s
    /\ Sigma0 = y.[Vars.S] * sigma_norm s.
Proof.
  intros HR HTn HT Hy.
  eexists _, _, _, _, _. split; [apply parameters_C_run; exact Hy |].
  destruct (ideal_gas_rho s y) as (Hrho & Hflag & He).
  split; [rewrite Hrho; field; repeat split; lra |].
  split; [unfold opacity; now rewrite Hflag, He |].
  repeat split.
Qed.

(** X12: with the ideal gas, on a valid and coherent session whose
    midplane pressure and temperature are positive, the first Pi
    parameter is the reciprocal of the normalized midplane temperature,
    and the third is [2 P] times the second, [P] being the normalized
    midplane pressure. *)
Theorem Pi_finder_ideal_gas (s : session) (tr : list event) (y : yvec) :
  valid s -> coherent s -> 0 < R_gas ->
  0 < y.[Vars.P] -> 0 < y.[Vars.T] ->
  y_c s = (tr, Returns y) ->
  exists Pi_1 Pi_2 Pi_3 Pi_4 : R,
    Pi_finder s = (tr, Returns (Pi_1, Pi_2, Pi_3, Pi_4))
    /\ Pi_1 * y.[Vars.T] = 1
    /\ Pi_3 = 2 * y.[Vars.P] * Pi_2.
Proof.
  intros Hv Hc HR HP HT Hy.
  pose proof (parameters_C_run s tr y Hy) as HC.
  unfold Pi_finder. rewrite HC.
  unfold bind, with_trace, ret. cbn [fst snd]. rewrite app_nil_r.
  eexists _, _, _, _. split; [reflexivity |].
  destruct (ideal_gas_rho s y) as (Hrho & _ & _). rewrite Hrho.
  pose proof (valid_alpha s Hv) as [Ha _].
  pose proof (valid_omegaK s Hv). pose proof (valid_Q_norm s Hv).
  pose proof (valid_z0 s Hv). pose proof (valid_mu s Hv).
  rewrite (coherent_Q0 s Hc), (valid_P_norm s Hv), (valid_T_norm s Hv).
  split; field; repeat split; lra.
Qed.
End IdealGasMidplane.

(** ** Further properties of the physics laws *)

Section LawsFurther.
Context `{Constants}.

Lemma fpow_increasing (x y q : R) :
  0 <= q -> 0 < x -> x <= y -> fpow x q <= fpow y q.
Proof. intros Hq Hx Hxy. unfold fpow. apply Rle_Rpower_l; lra. Qed.

Lemma fpow_decreasing (x y q : R) :
  q <= 0 -> 0 < x -> x <= y -> fpow y q <= fpow x q.
Proof.
  intros Hq Hx Hxy. unfold fpow.
  assert (Hinv : forall z, Rpower z q = / Rpower z (- q)).
  { intros z. rewrite <- Rpower_Ropp. f_equal. ring. }
  rewrite (Hinv x), (Hinv y).
  apply Rinv_le_contravar; [unfold Rpower; apply exp_pos |].
  apply Rle_Rpower_l; lra.
Qed.

(** X13: the Kramers opacity is positive for a positive density, does
    not decrease when the density grows, and does not increase when the
    temperature grows. *)
Theorem kramers_opacity_monotone (self : session)
    (rho1 rho2 T1 T2 e : R) :
  0 < rho1 -> rho1 <= rho2 -> 0 < T1 -> T1 <= T2 ->
  0 < KramersOpacityMixin.law_of_opacity self rho1 T1 e
  /\ KramersOpacityMixin.law_of_opacity self rho1 T1 e
     <= KramersOpacityMixin.law_of_opacity self rho2 T1 e
  /\ KramersOpacityMixin.law_of_opacity self rho1 T2 e
     <= KramersOpacityMixin.law_of_opacity self rho1 T1 e.
Proof.
  intros Hr1 Hr12 HT1 HT12.
  unfold KramersOpacityMixin.law_of_opacity, KramersOpacityMixin.varkappa0,
    KramersOpacityMixin.zeta, KramersOpacityMixin.gamma.
  pose proof (fpow_pos T1 (-7 / 2)) as Hp1.
  pose proof (fpow_pos T2 (-7 / 2)) as Hp2.
  pose proof (fpow_decreasing T1 T2 (-7 / 2) ltac:(lra) HT1 HT12) as Hdec.
  rewrite !pow_1.
  split; [positivity | split].
  - apply Rmult_le_compat_r; [lra |]. apply Rmult_le_compat_l; lra.
  - apply Rmult_le_compat_l; [| exact Hdec].
    apply Rmult_le_pos; lra.
Qed.

(** X14: the two-component opacity of Bell and Lin is, for positive
    density and temperature, positive, at most each of its two branches
    and equal to one of them, and it does not decrease when the density
    grows. *)
Theorem bell_lin_opacity_bounds (self : session) (rho1 rho2 T e : R) :
  0 < rho1 -> rho1 <= rho2 -> 0 < T ->
  let kappa := BellLin1994TwoComponentOpacityMixin.law_of_opacity self rho1 T e in
  let h := BellLin1994TwoComponentOpacityMixin.opacity_h self rho1 T in
  let ff := BellLin1994TwoComponentOpacityMixin.opacity_ff self rho1 T in
  0 < kappa /\ kappa <= h /\ kappa <= ff /\ (kappa = h \/ kappa = ff)
  /\ kappa <= BellLin1994TwoComponentOpacityMixin.law_of_opacity self rho2 T e.
Proof.
  intros Hr1 Hr12 HT kappa h ff.
  assert (Hh : 0 < h).
  { unfold h, BellLin1994TwoComponentOpacityMixin.opacity_h,
      BellLin1994TwoComponentOpacityMixin.varkappa0_h. positivity. }
  assert (Hff : 0 < ff).
  { unfold ff, BellLin1994TwoComponentOpacityMixin.opacity_ff,
      BellLin1994TwoComponentOpacityMixin.varkappa0_ff. positivity. }
  assert (Hh2 : h <= BellLin1994TwoComponentOpacityMixin.opacity_h self rho2 T).
  { unfold h, BellLin1994TwoComponentOpacityMixin.opacity_h,
      BellLin1994TwoComponentOpacityMixin.varkappa0_h,
      BellLin1994TwoComponentOpacityMixin.zeta_h.
    apply Rmult_le_compat_r; [apply pow_le; lra |].
    apply Rmult_le_compat_l; [lra |].
    apply fpow_increasing; lra. }
  assert (Hff2 : ff <= BellLin1994TwoComponentOpacityMixin.opacity_ff self rho2 T).
  { unfold ff, BellLin1994TwoComponentOpacityMixin.opacity_ff,
      BellLin1994TwoComponentOpacityMixin.varkappa0_ff,
      BellLin1994TwoComponentOpacityMixin.zeta_ff.
    pose proof (fpow_pos T BellLin1994TwoComponentOpacityMixin.gamma_ff).
    rewrite !pow_1.
    apply Rmult_le_compat_r; [lra |].
    apply Rmult_le_compat_l; lra. }
  unfold kappa, BellLin1994TwoComponentOpacityMixin.law_of_opacity.
  fold h ff.
  repeat split.
  - now apply Rmin_pos.
  - apply Rbasic_fun.Rmin_l.
  - apply Rbasic_fun.Rmin_r.
  - unfold Rmin. destruct (Rle_dec h ff); [now left | now right].
  - apply Rmin_glb.
    + eapply Rle_trans; [apply Rbasic_fun.Rmin_l | exact Hh2].
    + eapply Rle_trans; [apply Rbasic_fun.Rmin_r | exact Hff2].
Qed.
End LawsFurther.

Section PhotosphereKramers.
Context `{Constants} `{Scipy}.
Local Existing Instance IdealGasMixin.
Local Existing Instance KramersOpacityMixin.mixin.

(** X15: with the ideal gas and the Kramers opacity, on a valid session
    with positive effective temperature, the right side of the
    photospheric pressure equation is positive for a positive pressure
    and inversely proportional to the pressure: the product
    [P * dP/dtau] depends on the optical depth alone. *)
Theorem photospheric_slope_inverse_in_pressure (self : session)
    (tau P k : R) :
  valid self -> 0 < R_gas -> 0 < Teff self ->
  0 < P -> 0 < k ->
  0 < photospheric_pressure_equation self tau P
  /\ photospheric_pressure_equation self tau (k * P) * k
     = photospheric_pressure_equation self tau P.
Proof.
  intros Hv HR HT HP Hk.
  pose proof (valid_omegaK self Hv) as Hw.
  pose proof (valid_z0 self Hv) as Hz.
  pose proof (valid_mu self Hv) as Hmu.
  unfold photospheric_pressure_equation.
  cbn [law_of_rho IdealGasMixin IdealGas_law_of_rho law_of_opacity
       KramersOpacityMixin.mixin lnfree_e].
  unfold KramersOpacityMixin.law_of_opacity, KramersOpacityMixin.varkappa0,
    KramersOpacityMixin.zeta.
  set (T := Teff self * fpow (1 / 2 + 3 * tau / 4) (1 / 4)).
  assert (HTpos : 0 < T) by (unfold T; positivity).
  pose proof (fpow_pos T KramersOpacityMixin.gamma) as Hg.
  set (g := fpow T KramersOpacityMixin.gamma) in *.
  rewrite !pow_1.
  split; [positivity |].
  field. repeat split; lra.
Qed.
End PhotosphereKramers.

(** ** The Euler run with the ideal gas and the radiative gradient *)

Section EulerIdealGas.
Context `{Constants}.
Local Existing Instance Fixture.EulerScipy.
Local Existing Instance Fixture.GreyOpacity.
Local Existing Instance IdealGasMixin.
Local Existing Instance RadiativeTempGradient.

(** The midplane state has positive pressure and temperature. *)
Lemma euler_grey_y_c_positive (s : session) :
  valid s -> 0 < sigmaSB -> 0 < R_gas ->
  exists y : yvec,
    y_c s = ([], Returns y) /\ 0 < y.[Vars.P] /\ 0 < y.[Vars.T].
Proof.
  intros Hv Hs HR.
  pose proof (valid_P_norm_pos s Hv) as HPn.
  pose proof (valid_T_norm_pos s HR Hv) as HTn.
  pose proof (valid_omegaK s Hv) as Hw.
  pose proof (valid_z0 s Hv) as Hz.
  pose proof (valid_mu s Hv) as Hmu.
  unfold y_c, integrate. rewrite (Reqb_true 0 0 eq_refl).
  unfold initial, Q_initial. rewrite Rmult_1_l.
  rewrite euler_grey_P_ph, bind_nil_returns, bind_ret_l.
  cbn [solve_ivp_RK23 Fixture.EulerScipy Fixture.euler_system last].
  set (y0 := {| yS := 0;
                yP := (1e-7 * P_norm s
                       + (2 / 3 - 0) * (z0 s * omegaK s ^ 2 / 0.4))
                      / P_norm s;
                yQ := 1;
                yT := fpow (Q_norm s / sigmaSB) (1 / 4) / T_norm s |}).
  assert (HP0 : 0 < y0.[Vars.P]).
  { cbn [y0 get yP]. apply Rdiv_lt_0_compat; [| assumption].
    apply Rplus_lt_0_compat; positivity. }
  assert (HT0 : 0 < y0.[Vars.T]) by (cbn [y0 get yT]; positivity).
  assert (Hrho : 0 < fst (rho s y0 true)).
  { unfold rho. cbn [law_of_rho IdealGasMixin IdealGas_law_of_rho fst].
    positivity. }
  assert (Hk : 0 < opacity s y0 (lnfree_e (snd (rho s y0 true)))).
  { unfold opacity. cbn [law_of_opacity Fixture.GreyOpacity].
    unfold Fixture.grey_opacity. lra. }
  destruct (dydt_radiative_slopes_run s 0 y0 Hv Hs HR ltac:(lra) HP0 HT0 Hrho Hk)
    as (tr & dy & Hrun & _ & HdP & _ & _ & HdT).
  assert (Htr : tr = []).
  { pose proof (dydt_regular_state s 0 y0 ltac:(lra)
                  ltac:(cbn [y0 get yS]; lra)) as Hreg.
    cbv zeta in Hreg. rewrite Hreg in Hrun. now injection Hrun. }
  subst tr. rewrite Hrun.
  eexists. split.
  - rewrite bind_nil_returns, bind_ret_l, bind_ret_l.
    cbn [fst sol_y last_item rev app]. reflexivity.
  - cbn [get yP yT Fixture.add_scaled].
    change (yP y0) with y0.[Vars.P]. change (yT y0) with y0.[Vars.T].
    change (yP dy) with dy.[Vars.P]. change (yT dy) with dy.[Vars.T].
    split; nra.
Qed.
End EulerIdealGas.

(** ** Examples for the further properties *)

Section FurtherExamples.
Local Existing Instance Fixture.cgs.
Local Existing Instance Fixture.EulerScipy.
Local Existing Instance Fixture.GreyOpacity.
Local Existing Instance IdealGasMixin.
Local Existing Instance RadiativeTempGradient.

Lemma cgs_R_gas_pos : 0 < R_gas.
Proof. cbv [R_gas Fixture.cgs]. lra. Qed.

Lemma cgs_sigmaSB_pos : 0 < sigmaSB.
Proof. cbv [sigmaSB Fixture.cgs]. lra. Qed.

Lemma cgs_positive_constants : positive_constants.
Proof. unfold positive_constants. cbv [sigmaSB R_gas G M_sun Fixture.cgs]. lra. Qed.

Lemma fixture_coherent (a z : R) : coherent (Fixture.session_at a z).
Proof.
  constructor;
    cbn [Fixture.session_at Fixture.constructed set_z0 set_Teff
         GM Mx omegaK r Q_norm Q0 F Teff].
  - cbv [G Fixture.cgs]. lra.
  - replace (1 / 1 ^ 3) with 1 by lra. now rewrite sqrt_1.
  - field. apply PI_neq0.
  - reflexivity.
  - reflexivity.
Qed.

Lemma fit_hands_brentq_a_bracket_witness :
  let s := Fixture.session_at (1 / 2) (1 / 2) in
  let z := z0 s / r s in
  let d0 := Fixture.residual (1 / 2) z in
  let factor := if Rltb 0 d0 then 2.0 else 0.5 in
  let a := z * factor ^ 1 in
  let b := a / factor in
  exists (tra trb : list event) (da db : R),
    fit 1 s
    = with_trace ([] ++ List.concat (map (fun _ : nat => []) (seq 1 1)))
        (brentq dq a b (set_z0 s (a * r s)))
    /\ dq a s = (tra, Returns (da, set_z0 s (a * r s)))
    /\ dq b s = (trb, Returns (db, set_z0 s (b * r s)))
    /\ da * db <= 0 /\ da <> 0.
Proof.
  intros s z d0 factor.
  assert (Hz : z = 1 / 2) by (unfold z; cbn; lra).
  assert (Hd0 : 0 < d0) by (unfold d0, Fixture.residual; rewrite Hz; lra).
  assert (Hf : factor = 2) by (unfold factor; rewrite Rltb_true by assumption; lra).
  apply (fit_hands_brentq_a_bracket s 1 [] d0 (fun _ => [])
           (fun k => Fixture.residual (1 / 2) (z * factor ^ k))).
  - apply fixture_dq; [lra | change (0 < z); lra].
  - intros k Hk. apply fixture_dq; [lra |].
    change (0 < z * factor ^ k). rewrite Hf, Hz. positivity.
  - intros k Hk. lia.
  - change (d0 * Fixture.residual (1 / 2) (z * factor ^ 1) < 0).
    rewrite Hf. unfold d0, Fixture.residual. rewrite Hz. lra.
  - lia.
  - lia.
Defined.

Lemma dydt_flux_slope_witness :
  exists tr dy,
    dydt (Fixture.session_at (1 / 2) 1) 0 (Fixture.unit_state 0)
    = (tr, Returns dy)
    /\ dy.[Vars.Q] = - 2 * (Fixture.unit_state 0).[Vars.P].
Proof.
  apply (dydt_flux_slope (Fixture.session_at (1 / 2) 1) 0 (Fixture.unit_state 0)).
  apply fixture_valid; lra.
Defined.

Lemma dydt_pressure_follows_mass_witness :
  exists tr dy,
    dydt (Fixture.session_at (1 / 2) 1) 0 (Fixture.unit_state 0)
    = (tr, Returns dy)
    /\ dy.[Vars.P] = 7 / 2 * (1 - 0) * dy.[Vars.S].
Proof.
  apply (dydt_pressure_follows_mass (Fixture.session_at (1 / 2) 1) 0
           (Fixture.unit_state 0)).
  apply fixture_valid; lra.
Defined.

Lemma init_establishes_invariants_witness :
  exists s : session,
    __init__ (10 * M_sun) 0.01 1e10 1e35 default_eps default_mu
    = ([], Returns s)
    /\ valid s /\ coherent s /\ z0 s = z0_init s.
Proof.
  apply (init_establishes_invariants (10 * M_sun) 0.01 1e10 1e35
           default_eps default_mu).
  - exact cgs_positive_constants.
  - cbv [M_sun Fixture.cgs]. lra.
  - lra.
  - lra.
  - lra.
  - unfold default_mu. lra.
Defined.

Lemma dq_keeps_session_valid_witness :
  let s := Fixture.session_at (1 / 2) (1 / 2) in
  let s' := set_z0 s (1 * r s) in
  valid s' /\ z0 s' = 1 * r s /\ (coherent s -> coherent s').
Proof.
  intros s s'.
  apply (dq_keeps_session_valid s s' 1 (Fixture.residual (1 / 2) 1) []).
  - apply fixture_valid; lra.
  - lra.
  - apply fixture_dq; lra.
Defined.
Lemma fixture_unit_state_density (S : R) :
  0 < fst (rho (Fixture.session_at (1 / 2) 1) (Fixture.unit_state S) true).
Proof.
  pose proof cgs_R_gas_pos as HR.
  assert (Hv : valid (Fixture.session_at (1 / 2) 1)) by (apply fixture_valid; lra).
  pose proof (valid_P_norm_pos _ Hv) as HPn.
  pose proof (valid_T_norm_pos _ HR Hv) as HTn.
  pose proof (valid_mu _ Hv) as Hmu.
  unfold rho. cbn [law_of_rho IdealGasMixin IdealGas_law_of_rho fst get
                   Fixture.unit_state yP yT].
  positivity.
Qed.

Lemma dydt_radiative_slopes_witness :
  let self := Fixture.session_at (1 / 2) 1 in
  let y := Fixture.unit_state 0 in
  exists tr dy,
    dydt self 0 y = (tr, Returns dy)
    /\ 0 < dy.[Vars.S] /\ 0 < dy.[Vars.P] /\ dy.[Vars.Q] < 0
    /\ dy.[Vars.T]
       = (Rabs y.[Vars.Q] / y.[Vars.T] ^ 3) * 3
         * opacity self y (lnfree_e (snd (rho self y true)))
         * fst (rho self y true) * z0 self * Q_norm self
         / (16 * sigmaSB * T_norm self ^ 4)
    /\ 0 <= dy.[Vars.T].
Proof.
  intros self y.
  apply (dydt_radiative_slopes self 0 y).
  - apply fixture_valid; lra.
  - exact cgs_sigmaSB_pos.
  - exact cgs_R_gas_pos.
  - lra.
  - cbn [y Fixture.unit_state get yP]. lra.
  - cbn [y Fixture.unit_state get yT]. lra.
  - apply fixture_unit_state_density.
  - unfold opacity. cbn [law_of_opacity Fixture.GreyOpacity].
    unfold Fixture.grey_opacity. lra.
Defined.

Lemma Pi_4_is_tau0_scaled_witness :
  let s := Fixture.session_at (1 / 2) 1 in
  exists (y : yvec) (Pi_1 Pi_2 Pi_3 Pi_4 tau : R),
    y_c s = ([], Returns y)
    /\ Pi_finder s = ([], Returns (Pi_1, Pi_2, Pi_3, Pi_4))
    /\ tau0 s = ([], Returns tau)
    /\ Pi_4 = 3 / 16 * (Teff s / (y.[Vars.T] * T_norm s)) ^ 4 * tau.
Proof.
  intros s.
  destruct (euler_grey_y_c_positive s ltac:(apply fixture_valid; lra)
              cgs_sigmaSB_pos cgs_R_gas_pos) as (y & Hy & _ & _).
  destruct (Pi_4_is_tau0_scaled s [] y Hy)
    as (p1 & p2 & p3 & p4 & tau & HPi & Htau & H4).
  exists y, p1, p2, p3, p4, tau. repeat split; assumption.
Defined.

Lemma parameters_C_satisfy_the_laws_witness :
  let s := Fixture.session_at (1 / 2) 1 in
  exists (y : yvec) (varkappa_C rho_C T_C P_C Sigma0 : R),
    y_c s = ([], Returns y)
    /\ parameters_C s = ([], Returns (varkappa_C, rho_C, T_C, P_C, Sigma0))
    /\ rho_C * R_gas * T_C = mu s * P_C
    /\ varkappa_C = law_of_opacity s rho_C T_C 0.
Proof.
  intros s.
  assert (Hv : valid s) by (apply fixture_valid; lra).
  destruct (euler_grey_y_c_positive s Hv cgs_sigmaSB_pos cgs_R_gas_pos)
    as (y & Hy & _ & HT).
  destruct (parameters_C_satisfy_the_laws s [] y cgs_R_gas_pos
              (valid_T_norm_pos s cgs_R_gas_pos Hv) HT Hy)
    as (k & rh & T & P & Sg & HC & Heos & Hk & _).
  exists y, k, rh, T, P, Sg. repeat split; assumption.
Defined.

Lemma Pi_finder_ideal_gas_witness :
  let s := Fixture.session_at (1 / 2) 1 in
  exists (y : yvec) (Pi_1 Pi_2 Pi_3 Pi_4 : R),
    y_c s = ([], Returns y)
    /\ Pi_finder s = ([], Returns (Pi_1, Pi_2, Pi_3, Pi_4))
    /\ Pi_1 * y.[Vars.T] = 1
    /\ Pi_3 = 2 * y.[Vars.P] * Pi_2.
Proof.
  intros s.
  assert (Hv : valid s) by (apply fixture_valid; lra).
  destruct (euler_grey_y_c_positive s Hv cgs_sigmaSB_pos cgs_R_gas_pos)
    as (y & Hy & HP & HT).
  destruct (Pi_finder_ideal_gas s [] y Hv (fixture_coherent (1 / 2) 1)
              cgs_R_gas_pos HP HT Hy)
    as (p1 & p2 & p3 & p4 & HPi & H1 & H3).
  exists y, p1, p2, p3, p4. repeat split; assumption.
Defined.

Lemma kramers_opacity_monotone_witness :
  let self := Fixture.session_at (1 / 2) 1 in
  0 < KramersOpacityMixin.law_of_opacity self 1 1 0
  /\ KramersOpacityMixin.law_of_opacity self 1 1 0
     <= KramersOpacityMixin.law_of_opacity self 2 1 0
  /\ KramersOpacityMixin.law_of_opacity self 1 2 0
     <= KramersOpacityMixin.law_of_opacity self 1 1 0.
Proof.
  intros self.
  apply (kramers_opacity_monotone self 1 2 1 2 0); lra.
Defined.

Lemma bell_lin_opacity_bounds_witness :
  let self := Fixture.session_at (1 / 2) 1 in
  let kappa := BellLin1994TwoComponentOpacityMixin.law_of_opacity self 1 1 0 in
  let h := BellLin1994TwoComponentOpacityMixin.opacity_h self 1 1 in
  let ff := BellLin1994TwoComponentOpacityMixin.opacity_ff self 1 1 in
  0 < kappa /\ kappa <= h /\ kappa <= ff /\ (kappa = h \/ kappa = ff)
  /\ kappa <= BellLin1994TwoComponentOpacityMixin.law_of_opacity self 2 1 0.
Proof.
  intros self.
  apply (bell_lin_opacity_bounds self 1 2 1 0); lra.
Defined.
End FurtherExamples.

Section PhotosphereExample.
Local Existing Instance Fixture.cgs.
Local Existing Instance Fixture.EulerScipy.
Local Existing Instance IdealGasMixin.
Local Existing Instance KramersOpacityMixin.mixin.

Lemma photospheric_slope_inverse_in_pressure_witness :
  let self := Fixture.session_at (1 / 2) 1 in
  0 < photospheric_pressure_equation self 0 1
  /\ photospheric_pressure_equation self 0 (2 * 1) * 2
     = photospheric_pressure_equation self 0 1.
Proof.
  intros self.
  apply (photospheric_slope_inverse_in_pressure self 0 1 2).
  - apply fixture_valid; lra.
  - exact cgs_R_gas_pos.
  - cbn [self Fixture.session_at Fixture.constructed set_z0 set_Teff Teff].
    apply fpow_pos.
  - lra.
  - lra.
Defined.
End PhotosphereExample.

(** ** The shooting method with an integrator that gives up *)

Section GuardedExamples.
Local Existing Instance Fixture.cgs.
Local Existing Instance Fixture.Guarded4.
Local Existing Instance Fixture.GreyOpacity.
Local Existing Instance IdealGasMixin.
Local Existing Instance RadiativeTempGradient.

(** Above the threshold the guarded run is the Euler run. *)
Lemma guarded_dq_above_threshold (z : R) (s : session) :
  ~ 1e-7 * P_norm (set_z0 s (z * r s)) < 4e-7 ->
  dq z s
  = @dq Fixture.cgs Fixture.EulerScipy IdealGasMixin Fixture.GreyOpacity
      RadiativeTempGradient z s.
Proof.
  intros Hthr.
  unfold dq, y_c, integrate, initial, P_ph.
  cbn [solve_ivp_RK45 solve_ivp_RK23 Fixture.Guarded4 Fixture.GuardedScipy
       Fixture.EulerScipy].
  unfold Fixture.guarded_scalar. rewrite (Rltb_false _ _ Hthr).
  reflexivity.
Qed.

(** Below it the evaluation raises [IndexError]. *)
Lemma guarded_dq_below_threshold (z : R) (s : session) :
  1e-7 * P_norm (set_z0 s (z * r s)) < 4e-7 ->
  dq z s = ([], Raises IndexError).
Proof.
  intros Hthr.
  unfold dq, y_c, integrate. rewrite (Reqb_true 0 0 eq_refl).
  unfold initial, P_ph.
  cbn [solve_ivp_RK45 Fixture.Guarded4 Fixture.GuardedScipy].
  unfold Fixture.guarded_scalar. rewrite (Rltb_true _ _ Hthr).
  reflexivity.
Qed.

Lemma fixture_P_norm (a w z : R) :
  0 < a -> 0 < z ->
  P_norm (set_z0 (Fixture.session_at a w) (z * r (Fixture.session_at a w)))
  = 4 / (3 * a * z).
Proof.
  intros Ha Hz. rewrite P_norm_set_z0.
  cbn [Fixture.session_at Fixture.constructed set_z0 set_Teff alpha r
       omegaK Q_norm].
  field. lra.
Qed.

Lemma fit_propagates_trial_failure_witness :
  let s := Fixture.session_at (1 / 2) (1 / 2) in
  fit 1 s = ([] ++ List.concat (map (fun _ : nat => []) (seq 1 1)),
             Raises IndexError).
Proof.
  intros s.
  set (z := z0 s / r s).
  assert (Hz : z = 1 / 2) by (unfold z; cbn; lra).
  set (d0 := Fixture.residual (1 / 2) z).
  assert (Hd0 : 0 < d0) by (unfold d0, Fixture.residual; rewrite Hz; lra).
  apply (fit_propagates_trial_failure s 1 IndexError [] d0 (fun _ => [])
           (fun _ => 0)).
  - change (dq z s = ([], Returns (d0, set_z0 s (z * r s)))).
    rewrite guarded_dq_above_threshold.
    + apply fixture_dq; lra.
    + unfold s. rewrite fixture_P_norm by lra. rewrite Hz.
      intros Hlt. apply (Rlt_irrefl 0).
      apply Rlt_trans with (4e-7 - 1e-7 * (4 / (3 * (1 / 2) * (1 / 2)))); lra.
  - intros k Hk. lia.
  - change (dq (z * (if Rltb 0 d0 then 2.0 else 0.5) ^ 1) s
            = ([], Raises IndexError)).
    rewrite Rltb_true by assumption.
    apply guarded_dq_below_threshold.
    unfold s. rewrite fixture_P_norm by (try rewrite Hz; lra). rewrite Hz. lra.
  - lia.
  - lia.
Defined.
End GuardedExamples.

(** ** The mass coordinate along an integration *)

Section MassCoordinateOfIntegration.
Context `{Constants} `{Scipy} `{EOSLaw} `{OpacityLaw} `{TempGradient}.

Lemma rk_update_S_nondecreasing (self : session) (h : R)
    (stages : list stage) (ks : list yvec) :
  valid self -> 0 <= h ->
  Forall2 (fun st k =>
             0 <= st_weight st /\ 0 <= fst (rho self (st_y st) true)
             /\ exists tr, dydt self (st_t st) (st_y st) = (tr, Returns k))
          stages ks ->
  forall y : yvec, y.[Vars.S] <= (rk_update y h stages ks).[Vars.S].
Proof.
  intros Hv Hh Hst.
  induction Hst as [| st k stages ks (Hb & Hrho & tr & Hrun) _ IH]; intros y.
  - cbn [rk_update]. lra.
  - cbn [rk_update].
    eapply Rle_trans; [| apply IH].
    destruct (dydt_S_component self (st_t st) (st_y st))
      as (tr' & dy & Hrun' & HS).
    rewrite Hrun in Hrun'. injection Hrun' as _ <-.
    pose proof (dS_nonneg self (st_y st) Hv Hrho) as Hpos.
    rewrite <- HS in Hpos.
    cbn [get axpy yS]. change (yS k) with k.[Vars.S].
    assert (0 <= h * st_weight st * k.[Vars.S])
      by (apply Rmult_le_pos; [apply Rmult_le_pos |]; assumption).
    lra.
Qed.

Lemma rk_steps_S_nondecreasing (self : session) (y y' : yvec) :
  valid self ->
  rk_steps (dydt self) (fun y => 0 <= fst (rho self y true)) y y' ->
  y.[Vars.S] <= y'.[Vars.S].
Proof.
  intros Hv Hsteps.
  induction Hsteps as [y | y y' y'' Hstep _ IH]; [lra |].
  eapply Rle_trans; [| exact IH].
  destruct Hstep as [y h stages ks Hh Hst].
  now apply (rk_update_S_nondecreasing self h stages ks).
Qed.

Lemma advances_S_sorted (self : session) (y0 : yvec) (ys : list yvec) :
  valid self ->
  advances (dydt self) (fun y => 0 <= fst (rho self y true)) y0 ys ->
  StronglySorted (fun a b => a.[Vars.S] <= b.[Vars.S]) (y0 :: ys).
Proof.
  intros Hv Hadv.
  induction Hadv as [y | y y' ys Hsteps _ IH].
  - constructor; constructor.
  - pose proof (rk_steps_S_nondecreasing self y y' Hv Hsteps) as Hle.
    constructor; [exact IH |].
    constructor; [exact Hle |].
    apply StronglySorted_inv in IH. destruct IH as [_ Hall].
    eapply Forall_impl; [| exact Hall].
    intros b Hb. cbn beta in *. lra.
Qed.

Lemma initial_returns_inv (self : session) (tr : list event) (y0 : yvec) :
  initial self = (tr, Returns y0) -> y0.[Vars.S] = 0.
Proof.
  unfold initial, bind.
  destruct (P_ph self) as [tr' [p | e | ]]; cbn [fst snd].
  - unfold with_trace, ret. cbn [fst snd]. intros Heq.
    injection Heq as _ <-. reflexivity.
  - discriminate.
  - discriminate.
Qed.

End MassCoordinateOfIntegration.

(** ** The Euler run of [integrate] *)

Section EulerIntegration.
Context `{Constants}.
Local Existing Instance Fixture.EulerScipy.
Local Existing Instance Fixture.GreyOpacity.
Local Existing Instance IdealGasMixin.
Local Existing Instance RadiativeTempGradient.

Lemma add_scaled_axpy (y : yvec) (h : R) (k : yvec) :
  Fixture.add_scaled y h k = axpy y (h * 1) k.
Proof. unfold Fixture.add_scaled, axpy. f_equal; ring. Qed.

(** The initial state, the slope there, and what the Euler integrator
    returns on the grid [[0; 1]]. *)
Lemma euler_grey_integration_run (s : session) :
  valid s -> 0 < sigmaSB -> 0 < R_gas ->
  exists y0 dy : yvec,
    initial s = ([], Returns y0)
    /\ dydt s 0 y0 = ([], Returns dy)
    /\ 0 <= fst (rho s y0 true)
    /\ solve_ivp_RK23 (dydt s) (0, last [0; 1] 0) y0 [0; 1] (eps s)
       = ([], Returns (mk_ode yvec [0; 1] [y0; axpy y0 ((1 - 0) * 1) dy]
                         "euler")).
Proof.
  intros Hv Hs HR.
  pose proof (valid_P_norm_pos s Hv) as HPn.
  pose proof (valid_T_norm_pos s HR Hv) as HTn.
  pose proof (valid_omegaK s Hv) as Hw.
  pose proof (valid_z0 s Hv) as Hz.
  pose proof (valid_mu s Hv) as Hmu.
  set (y0 := {| yS := 0;
                yP := (1e-7 * P_norm s
                       + (2 / 3 - 0) * (z0 s * omegaK s ^ 2 / 0.4))
                      / P_norm s;
                yQ := 1;
                yT := fpow (Q_norm s / sigmaSB) (1 / 4) / T_norm s |}).
  assert (HP0 : 0 < y0.[Vars.P]).
  { cbn [y0 get yP]. apply Rdiv_lt_0_compat; [| assumption].
    apply Rplus_lt_0_compat; positivity. }
  assert (HT0 : 0 < y0.[Vars.T]) by (cbn [y0 get yT]; positivity).
  assert (Hrho : 0 < fst (rho s y0 true)).
  { unfold rho. cbn [law_of_rho IdealGasMixin IdealGas_law_of_rho fst].
    positivity. }
  pose proof (dydt_regular_state s 0 y0 ltac:(lra)
                ltac:(cbn [y0 get yS]; lra)) as Hreg.
  cbv zeta in Hreg.
  eexists y0, _. split; [| split; [| split]].
  - unfold initial, Q_initial. rewrite Rmult_1_l.
    rewrite euler_grey_P_ph, bind_nil_returns. reflexivity.
  - exact Hreg.
  - lra.
  - cbn [solve_ivp_RK23 Fixture.EulerScipy Fixture.euler_system last].
    rewrite Hreg, bind_nil_returns, add_scaled_axpy. reflexivity.
Qed.
End EulerIntegration.

(** ** Examples for the initial state, the mass coordinate and the
    unbounded expansion *)

Section RevisedExamples.
Local Existing Instance Fixture.cgs.
Local Existing Instance Fixture.EulerScipy.
Local Existing Instance Fixture.GreyOpacity.
Local Existing Instance IdealGasMixin.
Local Existing Instance RadiativeTempGradient.

Lemma initial_conditions_witness :
  let self := Fixture.session_at (1 / 2) 1 in
  let p0 := 1e-7 * P_norm self in
  let p := p0 + (2 / 3 - 0) * photospheric_pressure_equation self 0 p0 in
  P_ph self = ([], Returns p)
  /\ initial self
     = ([], Returns {| yS := 0;
                       yP := p / P_norm self;
                       yQ := 1;
                       yT := fpow (Q_norm self / sigmaSB) (1 / 4)
                             / T_norm self |})
  /\ forall tau P : R,
       let T := Teff self * fpow (1 / 2 + 3 * tau / 4) (1 / 4) in
       let rho := fst (law_of_rho self P T true) in
       let eos := snd (law_of_rho self P T true) in
       photospheric_pressure_equation self tau P
       = z0 self * omegaK self ^ 2 / law_of_opacity self rho T (lnfree_e eos).
Proof.
  intros self p0 p.
  apply (initial_conditions self []
           (mk_ode R [0; 2 / 3] [p0; p] "euler") [p0] p).
  - reflexivity.
  - reflexivity.
Defined.


Lemma dydt_midplane_is_stationary_in_P_and_T_witness :
  exists tr dy,
    dydt (Fixture.session_at (1 / 2) 1) 1 (Fixture.unit_state 0)
    = (tr, Returns dy)
    /\ dy.[Vars.P] = 0 /\ dy.[Vars.T] = 0.
Proof.
  apply (dydt_midplane_is_stationary_in_P_and_T
           (Fixture.session_at (1 / 2) 1) (Fixture.unit_state 0)).
  - apply fixture_valid; lra.
  - exact cgs_R_gas_pos.
  - cbn [Fixture.unit_state get yP]. lra.
  - cbn [Fixture.unit_state get yT]. lra.
Defined.
End RevisedExamples.

(** ** The shooting method with an integrator that makes no progress *)

Section StalledShooting.
Context `{Constants} `{EOSLaw} `{OpacityLaw} `{TempGradient}.
Local Existing Instance Fixture.StalledScipy.

(** The midplane flux is the initial one: the residual is 1 at every
    trial value. *)
Lemma stalled_dq (z : R) (s : session) :
  dq z s = ([], Returns (1, set_z0 s (z * r s))).
Proof.
  unfold dq, y_c, integrate. rewrite (Reqb_true 0 0 eq_refl).
  unfold initial, Q_initial, P_ph.
  cbn [solve_ivp_RK45 solve_ivp_RK23 Fixture.StalledScipy
       Fixture.stalled_scalar Fixture.stalled_system last].
  rewrite !bind_ret_l. cbn [sol_y last_item rev app fst].
  rewrite !bind_ret_l. reflexivity.
Qed.
End StalledShooting.

Section StalledExamples.
Local Existing Instance Fixture.cgs.
Local Existing Instance Fixture.StalledScipy.
Local Existing Instance KramersOpacityMixin.mixin.
Local Existing Instance IdealGasMixin.
Local Existing Instance RadiativeTempGradient.


End StalledExamples.
